(** * SimpleWebCrawlerPython: the link extractor and the worker pool of
      [web_crawler.py].

    The file has two parts.

    - [get_links_from_page_text] is embedded as a function on the anchors
      that BeautifulSoup hands back.  [urlparse] and the HTML parser are
      library code; they are Section variables, and either of them may
      raise.

    - [get_and_process_url], run by [num_threads] threads over the four
      module globals, is embedded as an interleaving transition system.
      Every thread has a program counter named after the source line it is
      about to execute; one transition executes one statement.  The lock
      behind [g_url_condition], the waiters of the condition variable and
      the print semaphore are part of the state.

    Modelling choices: a statement is atomic (in particular [+= 1] and
    [-= 1] are one transition each); [wait()] returns only after a
    [notify_all]; a [print] may raise, and then writes nothing; the tests
    of lines 77, 83 and 86 are evaluated together, the lock being held. *)

From Stdlib Require Import ZArith Lia Ascii String.
From stdpp Require Import base option list strings gmap.

Open Scope Z_scope.
Open Scope nat_scope.

(** ** Part 1: link extraction *)

(** What the code reads of [urlparse(page_url)]. *)
Record ParseResult := { scheme : string; netloc : string }.

(** A BeautifulSoup tag: only its attribute dictionary is used. *)
Record Tag := { attrs : gmap string string }.

(** [link.get('href')]: the attribute's value, or [None]. *)
Definition Tag_get (key : string) (link : Tag) : option string :=
  attrs link !! key.

(** [path_or_url[0] == '/'] on a non-empty string. *)
Definition first_is_slash (path_or_url : string) : bool :=
  match String.get 0 path_or_url with
  | Some c => Ascii.eqb c "/"%char
  | None => false
  end.

(** One pass through the body of the [for] loop (lines 46-57): [None] is
    [continue], [Some link_url] is [links.append(link_url)]. *)
Definition link_url_of (pathless_url : string) (link : Tag) : option string :=
  match Tag_get "href" link with
  | None => None
  | Some path_or_url =>
      if String.length path_or_url =? 0 then None
      else if first_is_slash path_or_url then
        Some (pathless_url +:+ path_or_url)
      else if String.eqb (substring 0 3 path_or_url) "http" then
        Some path_or_url
      else None
  end.

(** The [for] loop over [bs_page.findAll('a')], threading [links]. *)
Fixpoint links_loop (pathless_url : string) (found : list Tag)
    (links : list string) : list string :=
  match found with
  | [] => links
  | link :: found' =>
      match link_url_of pathless_url link with
      | None => links_loop pathless_url found' links
      | Some link_url => links_loop pathless_url found' (links ++ [link_url])
      end
  end.

(** Line 42. *)
Definition pathless_url_of (parsed_url : ParseResult) : string :=
  scheme parsed_url +:+ "://" +:+ netloc parsed_url.

Section Extraction.

(** [urllib.parse.urlparse]: the parts of the URL, or [None] when it
    raises [ValueError] (a host with an unmatched bracket, for one). *)
Variable urlparse : string → option ParseResult.

(** [BeautifulSoup(page_text, features="lxml").findAll('a')]: the anchors
    in document order, or [None] when the parser raises. *)
Variable findAll_a : string → option (list Tag).

(** [None] when line 41 or line 44 raises. *)
Definition get_links_from_page_text (page_url page_text : string)
    : option (list string) :=
  let links := [] in
  match urlparse page_url with
  | None => None
  | Some parsed_url =>
      let pathless_url := pathless_url_of parsed_url in
      match findAll_a page_text with
      | None => None
      | Some found => Some (links_loop pathless_url found links)
      end
  end.

End Extraction.

(** An anchor with just an [href], and one without. *)
Definition a_href (h : string) : Tag := {| attrs := {[ "href" := h ]} |}.

(** ** Part 2: the worker pool *)

(** Program counters of [get_and_process_url].  [Lnn] means: the thread
    is about to execute line nn.  [L92_blocked] and [L92_woken] are the two
    phases inside [g_url_condition.wait()]: asleep, and notified but not yet
    holding the lock again. *)
Inductive pc :=
  | L74 | L77 | L78 | L79 | L80 | L81
  | L84 | L87 | L88 | L89
  | L92 | L92_blocked | L92_woken
  | L95 | L97
  | L102 | L103 | L107 | L108 | L110 | L111
  | L113 | L114 | L115 | L117
  | L124 | L125 | L126
  | Returned | Crashed.

Global Instance pc_eq_dec : EqDecision pc.
Proof. solve_decision. Defined.

(** The locals of one thread; [for_rest] is what the running [for] loop
    has still to iterate over. *)
Record Local := {
  at_pc : pc;
  page_url : string;
  page_links : list string;
  for_rest : list string;
}.

(** The module globals, standard output, and the threads. *)
Record State := {
  g_urls_to_be_processed : list string;
  g_urls_already_processed : list string;
  g_num_threads_processing : Z;
  g_all_done : bool;
  g_url_condition_lock : option nat;
  g_print_lock : nat;
  stdout : list string;
  threads : list Local;
}.

Definition set_pc (p : pc) (l : Local) : Local :=
  {| at_pc := p; page_url := page_url l; page_links := page_links l;
     for_rest := for_rest l |}.
Definition set_page_url (u : string) (l : Local) : Local :=
  {| at_pc := at_pc l; page_url := u; page_links := page_links l;
     for_rest := for_rest l |}.
Definition set_page_links (ls : list string) (l : Local) : Local :=
  {| at_pc := at_pc l; page_url := page_url l; page_links := ls;
     for_rest := for_rest l |}.
Definition set_for_rest (ls : list string) (l : Local) : Local :=
  {| at_pc := at_pc l; page_url := page_url l; page_links := page_links l;
     for_rest := ls |}.

Definition set_pending (q : list string) (s : State) : State :=
  {| g_urls_to_be_processed := q;
     g_urls_already_processed := g_urls_already_processed s;
     g_num_threads_processing := g_num_threads_processing s;
     g_all_done := g_all_done s;
     g_url_condition_lock := g_url_condition_lock s;
     g_print_lock := g_print_lock s; stdout := stdout s;
     threads := threads s |}.
Definition set_visited (v : list string) (s : State) : State :=
  {| g_urls_to_be_processed := g_urls_to_be_processed s;
     g_urls_already_processed := v;
     g_num_threads_processing := g_num_threads_processing s;
     g_all_done := g_all_done s;
     g_url_condition_lock := g_url_condition_lock s;
     g_print_lock := g_print_lock s; stdout := stdout s;
     threads := threads s |}.
Definition set_count (n : Z) (s : State) : State :=
  {| g_urls_to_be_processed := g_urls_to_be_processed s;
     g_urls_already_processed := g_urls_already_processed s;
     g_num_threads_processing := n;
     g_all_done := g_all_done s;
     g_url_condition_lock := g_url_condition_lock s;
     g_print_lock := g_print_lock s; stdout := stdout s;
     threads := threads s |}.
Definition set_all_done (b : bool) (s : State) : State :=
  {| g_urls_to_be_processed := g_urls_to_be_processed s;
     g_urls_already_processed := g_urls_already_processed s;
     g_num_threads_processing := g_num_threads_processing s;
     g_all_done := b;
     g_url_condition_lock := g_url_condition_lock s;
     g_print_lock := g_print_lock s; stdout := stdout s;
     threads := threads s |}.
Definition set_lock (o : option nat) (s : State) : State :=
  {| g_urls_to_be_processed := g_urls_to_be_processed s;
     g_urls_already_processed := g_urls_already_processed s;
     g_num_threads_processing := g_num_threads_processing s;
     g_all_done := g_all_done s;
     g_url_condition_lock := o;
     g_print_lock := g_print_lock s; stdout := stdout s;
     threads := threads s |}.
Definition set_print_lock (n : nat) (s : State) : State :=
  {| g_urls_to_be_processed := g_urls_to_be_processed s;
     g_urls_already_processed := g_urls_already_processed s;
     g_num_threads_processing := g_num_threads_processing s;
     g_all_done := g_all_done s;
     g_url_condition_lock := g_url_condition_lock s;
     g_print_lock := n; stdout := stdout s;
     threads := threads s |}.
Definition print (line : string) (s : State) : State :=
  {| g_urls_to_be_processed := g_urls_to_be_processed s;
     g_urls_already_processed := g_urls_already_processed s;
     g_num_threads_processing := g_num_threads_processing s;
     g_all_done := g_all_done s;
     g_url_condition_lock := g_url_condition_lock s;
     g_print_lock := g_print_lock s; stdout := stdout s ++ [line];
     threads := threads s |}.
Definition set_threads (ths : list Local) (s : State) : State :=
  {| g_urls_to_be_processed := g_urls_to_be_processed s;
     g_urls_already_processed := g_urls_already_processed s;
     g_num_threads_processing := g_num_threads_processing s;
     g_all_done := g_all_done s;
     g_url_condition_lock := g_url_condition_lock s;
     g_print_lock := g_print_lock s; stdout := stdout s;
     threads := ths |}.

(** Thread [t] continues as [l]. *)
Definition resume (t : nat) (l : Local) (s : State) : State :=
  set_threads (<[t := l]> (threads s)) s.

(** [link in urls] on Python lists of strings. *)
Fixpoint is_in (link : string) (urls : list string) : bool :=
  match urls with
  | [] => false
  | u :: urls' => String.eqb link u || is_in link urls'
  end.

(** [g_url_condition.notify_all()]: every sleeping waiter is notified. *)
Definition wake (l : Local) : Local :=
  match at_pc l with
  | L92_blocked => set_pc L92_woken l
  | _ => l
  end.
Definition notify_all (s : State) : State :=
  set_threads (wake <$> threads s) s.

(** What a transition lets an observer count. *)
Inductive Event :=
  | EvDequeue (t : nat) (url : string)
  | EvFetch (t : nat) (url : string).

(** The insertion loop of a publish and its notification. *)
Definition inserting (p : pc) : bool :=
  match p with
  | L103 | L107 | L108 => true
  | _ => false
  end.

Section Workers.

Variable urlparse : string → option ParseResult.
Variable findAll_a : string → option (list Tag).

(** Whether [urllib.request.Request(page_url)] constructs; it raises
    [ValueError] on a URL without a scheme. *)
Variable Request_ok : string → bool.

(** [urlopen(req)], [response.read()] and [decode('utf8')]: the page
    text, or [None] when any of them raises. *)
Variable urlopen_read_decode : string → option string.

(** Whether [print(line)] succeeds when standard output holds [out]; it
    raises when the text cannot be encoded for the stream
    ([UnicodeEncodeError], named in the handler's comment) or the stream
    cannot be written to.  Standard output grows with every print that
    succeeds, so the outcome may differ from one print to the next. *)
Variable print_ok : list string → string → bool.

(** Lines 97-100: the page's links, or [None] when the [try] block
    raises before the lock is taken. *)
Definition fetch_links (page_url : string) : option (list string) :=
  match urlopen_read_decode page_url with
  | None => None
  | Some page_text =>
      get_links_from_page_text urlparse findAll_a page_url page_text
  end.

(** The statement at the program counter of [l], executed by thread
    [t]; [None] when the thread cannot move: it waits for a lock or a
    notification, or has ended.  An exception raised inside the [try]
    block (lines 97-117) leads to the handler at line 124; one raised
    outside it ends the thread. *)
Definition statement (t : nat) (l : Local) (s : State) : option State :=
    match at_pc l with
    | L74 =>
        match g_url_condition_lock s with
        | None => Some (resume t (set_pc L77 l) (set_lock (Some t) s))
        | Some _ => None
        end
    | L77 =>
        if 0 <? length (g_urls_to_be_processed s) then
          Some (resume t (set_pc L78 l) s)
        else if g_all_done s then Some (resume t (set_pc L84 l) s)
        else if (g_num_threads_processing s =? 0)%Z then
          Some (resume t (set_pc L87 l) s)
        else Some (resume t (set_pc L92 l) s)
    | L78 =>
        match g_urls_to_be_processed s with
        | [] => Some (resume t (set_pc Crashed l) s)
        | u :: q =>
            Some (resume t (set_pc L79 (set_page_url u l)) (set_pending q s))
        end
    | L79 =>
        Some (resume t (set_pc L80 l)
                (set_visited (g_urls_already_processed s ++ [page_url l]) s))
    | L80 => Some (resume t (set_pc L81 l) (set_lock None s))
    | L81 =>
        Some (resume t (set_pc L95 l)
                (set_count (g_num_threads_processing s + 1)%Z s))
    | L84 => Some (resume t (set_pc Returned l) (set_lock None s))
    | L87 => Some (resume t (set_pc L88 l) (set_all_done true s))
    | L88 => Some (resume t (set_pc L89 l) (notify_all s))
    | L89 => Some (resume t (set_pc Returned l) (set_lock None s))
    | L92 => Some (resume t (set_pc L92_blocked l) (set_lock None s))
    | L92_blocked => None
    | L92_woken =>
        match g_url_condition_lock s with
        | None => Some (resume t (set_pc L77 l) (set_lock (Some t) s))
        | Some _ => None
        end
    | L95 =>
        if Request_ok (page_url l) then Some (resume t (set_pc L97 l) s)
        else Some (resume t (set_pc Crashed l) s)
    | L97 =>
        match fetch_links (page_url l) with
        | Some links =>
            Some (resume t (set_pc L102 (set_page_links links l)) s)
        | None => Some (resume t (set_pc L124 l) s)
        end
    | L102 =>
        match g_url_condition_lock s with
        | None =>
            Some (resume t (set_pc L103 (set_for_rest (page_links l) l))
                    (set_lock (Some t) s))
        | Some _ => None
        end
    | L103 =>
        match for_rest l with
        | [] => Some (resume t (set_pc L107 l) s)
        | link :: rest =>
            if negb (is_in link (g_urls_already_processed s))
               && negb (is_in link (g_urls_to_be_processed s))
            then Some (resume t (set_for_rest rest l)
                         (set_pending (g_urls_to_be_processed s ++ [link]) s))
            else Some (resume t (set_for_rest rest l) s)
        end
    | L107 =>
        if 0 <? length (g_urls_to_be_processed s) then
          Some (resume t (set_pc L108 l) s)
        else Some (resume t (set_pc L110 l) s)
    | L108 => Some (resume t (set_pc L110 l) (notify_all s))
    | L110 =>
        Some (resume t (set_pc L111 l)
                (set_count (g_num_threads_processing s - 1)%Z s))
    | L111 => Some (resume t (set_pc L113 l) (set_lock None s))
    | L113 =>
        match g_print_lock s with
        | O => None
        | S n => Some (resume t (set_pc L114 l) (set_print_lock n s))
        end
    | L114 =>
        if print_ok (stdout s) (page_url l) then
          Some (resume t (set_pc L115 (set_for_rest (page_links l) l))
                  (print (page_url l) s))
        else Some (resume t (set_pc L124 l) s)
    | L115 =>
        match for_rest l with
        | [] => Some (resume t (set_pc L117 l) s)
        | link :: rest =>
            if print_ok (stdout s) ("  " +:+ link) then
              Some (resume t (set_for_rest rest l) (print ("  " +:+ link) s))
            else Some (resume t (set_pc L124 l) s)
        end
    | L117 =>
        Some (resume t (set_pc L74 l) (set_print_lock (S (g_print_lock s)) s))
    | L124 =>
        match g_url_condition_lock s with
        | None => Some (resume t (set_pc L125 l) (set_lock (Some t) s))
        | Some _ => None
        end
    | L125 =>
        Some (resume t (set_pc L126 l)
                (set_count (g_num_threads_processing s - 1)%Z s))
    | L126 => Some (resume t (set_pc L74 l) (set_lock None s))
    | Returned => None
    | Crashed => None
    end.

(** One transition of the pool: thread [t] executes its statement. *)
Definition step (t : nat) (s : State) : option State :=
  match threads s !! t with
  | None => None
  | Some l => statement t l s
  end.

(** The events of that statement. *)
Definition event (t : nat) (l : Local) (s : State) : list Event :=
  match at_pc l, g_urls_to_be_processed s with
  | L78, u :: _ => [EvDequeue t u]
  | L97, _ => [EvFetch t (page_url l)]
  | _, _ => []
  end.

Definition observe (t : nat) (s : State) : list Event :=
  match threads s !! t with
  | None => []
  | Some l => event t l s
  end.

(** Runs: any interleaving of the threads' statements. *)
Inductive exec (s0 : State) : list Event → State → Prop :=
  | exec_refl : exec s0 [] s0
  | exec_step tr s t s' :
      exec s0 tr s → step t s = Some s' → exec s0 (tr ++ observe t s) s'.

(** A run under a given schedule, as a function. *)
Fixpoint run (sched : list nat) (s : State) : option (list Event * State) :=
  match sched with
  | [] => Some ([], s)
  | t :: sched' =>
      match step t s with
      | None => None
      | Some s' =>
          match run sched' s' with
          | None => None
          | Some (tr, s'') => Some (observe t s ++ tr, s'')
          end
      end
  end.

(** Thread [t] is inside the insertion loop of a publish, or at its
    notification, holding the lock. *)
Definition publishing (t : nat) (s : State) : Prop :=
  ∃ l, threads s !! t = Some l ∧ inserting (at_pc l) = true.

(** The pool runs while [t] stays inside one publish. *)
Inductive publish_run (t : nat) (s1 : State) : State → Prop :=
  | publish_here : publish_run t s1 s1
  | publish_then s t' s' :
      publish_run t s1 s → publishing t s → step t' s = Some s' →
      publishing t s' → publish_run t s1 s'.

End Workers.

(** [main]: the globals as initialised at import, the starting URL
    appended, and [num_threads] threads about to enter the loop. *)
Definition thread0 : Local :=
  {| at_pc := L74; page_url := ""; page_links := []; for_rest := [] |}.

Definition main (num_threads : nat) (starting_url : string) : State :=
  {| g_urls_to_be_processed := [starting_url];
     g_urls_already_processed := [];
     g_num_threads_processing := 0;
     g_all_done := false;
     g_url_condition_lock := None;
     g_print_lock := 1;
     stdout := [];
     threads := replicate num_threads thread0 |}.

(** ** Sample collaborators, used to run the model on concrete inputs *)

Definition occurs (c : string) (str : string) : bool :=
  match index 0 c str with
  | Some _ => true
  | None => false
  end.

(** The part of [str] before the first occurrence of [c]. *)
Definition part_before (c : string) (str : string) : string :=
  match index 0 c str with
  | Some j => substring 0 j str
  | None => str
  end.

(** A stand-in for [urlparse] on URLs of the shape [scheme://netloc/path];
    like the library it raises on a host with an unmatched bracket. *)
Definition sample_urlparse (url : string) : option ParseResult :=
  match index 0 "://" url with
  | None => Some {| scheme := ""; netloc := "" |}
  | Some i =>
      let rest := substring (i + 3) (String.length url) url in
      let host := part_before "#" (part_before "?" (part_before "/" rest)) in
      if xorb (occurs "[" host) (occurs "]" host) then None
      else Some {| scheme := substring 0 i url; netloc := host |}
  end.

(** Standard output that takes every line, and one on which every print
    after the first line raises. *)
Definition stdout_open (out : list string) (line : string) : bool := true.
Definition stdout_short (out : list string) (line : string) : bool :=
  match out with
  | [] => true
  | _ => false
  end.

(** A three-page site: [/a] links to [/b]; [/b] links to [/a] and [/c];
    [/c] has no anchors.  Page texts stand for the markup. *)
Definition site_read (url : string) : option string :=
  if String.eqb url "http://h/a" then Some "a: <a href=/b>"
  else if String.eqb url "http://h/b" then Some "b: <a href=/a> <a href=/c>"
  else if String.eqb url "http://h/c" then Some "c:"
  else None.

Definition site_findAll_a (page_text : string) : option (list Tag) :=
  if String.eqb page_text "a: <a href=/b>" then Some [a_href "/b"]
  else if String.eqb page_text "b: <a href=/a> <a href=/c>" then
    Some [a_href "/a"; a_href "/c"]
  else if String.eqb page_text "c:" then Some []
  else None.

(** A stand-in for [Request_ok]: a non-empty prefix without a slash ends
    at the first colon. *)
Definition has_scheme (url : string) : bool :=
  match index 0 ":" url with
  | Some (S i) => negb (occurs "/" (substring 0 (S i) url))
  | _ => false
  end.

Definition site_run (sched : list nat) (s : State) :=
  run sample_urlparse site_findAll_a has_scheme site_read stdout_open sched s.

(** A second site: [/a] links to [/b] and [/c], which have no anchors. *)
Definition fan_read (url : string) : option string :=
  if String.eqb url "http://h/a" then Some "a: <a href=/b> <a href=/c>"
  else if String.eqb url "http://h/b" then Some "b:"
  else if String.eqb url "http://h/c" then Some "c:"
  else None.

Definition fan_findAll_a (page_text : string) : option (list Tag) :=
  if String.eqb page_text "a: <a href=/b> <a href=/c>" then
    Some [a_href "/b"; a_href "/c"]
  else if String.eqb page_text "b:" then Some []
  else if String.eqb page_text "c:" then Some []
  else None.

Definition fan_run (sched : list nat) (s : State) :=
  run sample_urlparse fan_findAll_a has_scheme fan_read stdout_open sched s.

(** The three-page site with the short standard output. *)
Definition short_run (sched : list nat) (s : State) :=
  run sample_urlparse site_findAll_a has_scheme site_read stdout_short
    sched s.

Abbreviation site_exec :=
  (exec sample_urlparse site_findAll_a has_scheme site_read stdout_open).
Abbreviation site_step :=
  (step sample_urlparse site_findAll_a has_scheme site_read stdout_open).
Abbreviation fan_exec :=
  (exec sample_urlparse fan_findAll_a has_scheme fan_read stdout_open).
Abbreviation fan_step :=
  (step sample_urlparse fan_findAll_a has_scheme fan_read stdout_open).
Abbreviation short_exec :=
  (exec sample_urlparse site_findAll_a has_scheme site_read stdout_short).
Abbreviation short_step :=
  (step sample_urlparse site_findAll_a has_scheme site_read stdout_short).

(** The trace and the final state of a computed run. *)
Definition trace_of (r : option (list Event * State)) : list Event :=
  match r with
  | Some (tr, _) => tr
  | None => []
  end.

Definition state_of (r : option (list Event * State)) : State :=
  match r with
  | Some (_, s) => s
  | None => main 0 ""
  end.

(** ** Vocabulary of the statements *)

(** Program counters at which the thread holds the lock of
    [g_url_condition]. *)
Definition holds_lock (p : pc) : bool :=
  match p with
  | L77 | L78 | L79 | L80 | L84 | L87 | L88 | L89 | L92
  | L103 | L107 | L108 | L110 | L111 | L125 | L126 => true
  | _ => false
  end.

(** The branches of the inner loop taken on an empty queue. *)
Definition queue_was_empty (p : pc) : bool :=
  match p with
  | L84 | L87 | L88 | L89 | L92 => true
  | _ => false
  end.

(** Termination has been decided by this thread. *)
Definition decided (p : pc) : bool :=
  match p with
  | L88 | L89 => true
  | _ => false
  end.

(** Reached only through a test [len(g_urls_to_be_processed) > 0]. *)
Definition queue_nonempty (p : pc) : bool :=
  match p with
  | L78 | L108 => true
  | _ => false
  end.

(** Number of occurrences of a URL in a list. *)
Fixpoint occ (u : string) (urls : list string) : nat :=
  match urls with
  | [] => 0
  | x :: urls' => (if String.eqb u x then 1 else 0) + occ u urls'
  end.

(** The URLs dequeued, and those whose fetch was attempted, in the order
    of the run. *)
Fixpoint dequeued_urls (tr : list Event) : list string :=
  match tr with
  | [] => []
  | EvDequeue _ u :: tr' => u :: dequeued_urls tr'
  | EvFetch _ _ :: tr' => dequeued_urls tr'
  end.

Fixpoint fetched_urls (tr : list Event) : list string :=
  match tr with
  | [] => []
  | EvFetch _ u :: tr' => u :: fetched_urls tr'
  | EvDequeue _ _ :: tr' => fetched_urls tr'
  end.

(** Sum of a weight over the threads. *)
Definition tsum (w : Local → nat) (ths : list Local) : nat :=
  sum_list (w <$> ths).

Definition at_any (ps : pc → bool) (l : Local) : nat :=
  if ps (at_pc l) then 1 else 0.

Definition at_any_with (ps : pc → bool) (u : string) (l : Local) : nat :=
  if ps (at_pc l) && String.eqb u (page_url l) then 1 else 0.

(** Popped from the queue, not yet appended to the processed list. *)
Definition popped (p : pc) : bool :=
  match p with L79 => true | _ => false end.

(** Dequeued, [urlopen] not yet attempted (or never to be). *)
Definition before_fetch (p : pc) : bool :=
  match p with
  | L79 | L80 | L81 | L95 | L97 | Crashed => true
  | _ => false
  end.


(** Inside the print section, lines 114-117. *)
Definition printing (p : pc) : bool :=
  match p with
  | L114 | L115 | L117 => true
  | _ => false
  end.

(** Past the increment of line 81 with the decrement of line 110 ahead,
    or in the handler with the decrement of line 125 ahead. *)
Definition counted (p : pc) : bool :=
  match p with
  | L95 | L97 | L102 | L103 | L107 | L108 | L110 | L124 | L125
  | Crashed => true
  | _ => false
  end.



Definition blocked (p : pc) : bool :=
  match p with L92_blocked => true | _ => false end.

(** All threads but [t] are as they were. *)
Definition others_same (t : nat) (s s' : State) : Prop :=
  ∀ t', t' ≠ t → threads s' !! t' = threads s !! t'.


(** [g_urls_to_be_processed], [g_urls_already_processed] and [g_all_done]
    agree. *)
Definition same_queues (s s' : State) : Prop :=
  g_urls_to_be_processed s' = g_urls_to_be_processed s
  ∧ g_urls_already_processed s' = g_urls_already_processed s
  ∧ g_all_done s' = g_all_done s.

(** What a thread holding the lock may rely on. *)
Definition thread_ok (s : State) (t : nat) (l : Local) : Prop :=
  holds_lock (at_pc l) = true →
  g_url_condition_lock s = Some t
  ∧ (queue_nonempty (at_pc l) = true → g_urls_to_be_processed s ≠ [])
  ∧ (queue_was_empty (at_pc l) = true → g_urls_to_be_processed s = [])
  ∧ (decided (at_pc l) = true → g_all_done s = true).

Definition threads_ok (s : State) : Prop :=
  ∀ t l, threads s !! t = Some l → thread_ok s t l.

(** Past line 79 the thread's URL is in the processed list. *)
Definition claimed (p : pc) : bool :=
  match p with
  | L80 | L81 | L95 | L97
  | L102 | L103 | L107 | L108 | L110 | L111
  | L113 | L114 | L115 | L117 | L124 | L125 | L126 => true
  | _ => false
  end.

Definition urls_ok (s : State) : Prop :=
  ∀ t l, threads s !! t = Some l → claimed (at_pc l) = true →
  page_url l ∈ g_urls_already_processed s.

(** A sleeping waiter implies an empty queue, unless a publish is in the
    middle of filling it. *)
Definition waiters_ok (s : State) : Prop :=
  ∀ w lw, threads s !! w = Some lw → at_pc lw = L92_blocked →
  g_urls_to_be_processed s = []
  ∨ ∃ t l, threads s !! t = Some l ∧ inserting (at_pc l) = true.

(** Bookkeeping that ties the queue, the processed list, the events of the
    run and the counter to where the threads are.  The last line: the
    counter is the number of threads with a decrement ahead, less one once
    the print semaphore is taken by nobody (a print has raised: its thread
    had decremented at line 110 and decrements again at line 125). *)
Definition counts_ok (tr : list Event) (s : State) : Prop :=
  (∀ u, occ u (g_urls_to_be_processed s) + occ u (g_urls_already_processed s)
        + tsum (at_any_with popped u) (threads s) ≤ 1)
  ∧ (∀ u, occ u (dequeued_urls tr)
          = occ u (g_urls_already_processed s)
            + tsum (at_any_with popped u) (threads s))
  ∧ (∀ u, occ u (dequeued_urls tr)
          = occ u (fetched_urls tr)
            + tsum (at_any_with before_fetch u) (threads s))
  ∧ (g_num_threads_processing s + 1)%Z
    = Z.of_nat (tsum (at_any counted) (threads s) + g_print_lock s
                + tsum (at_any printing) (threads s)).

(** [g_print_lock] is free, or taken by a thread inside lines 114-117.
    A print that raises ends this for good: the handler does not release
    the semaphore. *)
Definition print_lock_intact (s : State) : Prop :=
  g_print_lock s + tsum (at_any printing) (threads s) = 1.

(** ** Vocabulary of further properties *)

(** The locals hold the outcome of lines 97-100. *)
Definition has_links (p : pc) : bool :=
  match p with
  | L102 | L103 | L107 | L108 | L110 | L111
  | L113 | L114 | L115 | L117 => true
  | _ => false
  end.

(** Neither asleep nor ended. *)
Definition awake (p : pc) : bool :=
  match p with
  | L92_blocked | Returned | Crashed => false
  | _ => true
  end.

Definition crashed (p : pc) : bool :=
  match p with Crashed => true | _ => false end.

Definition returned (p : pc) : bool :=
  match p with Returned => true | _ => false end.

(** 1 when the lock is taken. *)
Definition lock_bit (o : option nat) : nat :=
  match o with
  | Some _ => 1
  | None => 0
  end.

(** The page block of lines 114-116: the URL, then the links indented. *)
Definition block (b : string * list string) : list string :=
  b.1 :: ((λ link, "  " +:+ link) <$> b.2).

(** The part of its block a thread inside the print section has written. *)
Definition printed_so_far (l : Local) : list string :=
  match at_pc l with
  | L115 =>
      block (page_url l,
             take (length (page_links l) - length (for_rest l)) (page_links l))
  | L117 => block (page_url l, page_links l)
  | _ => []
  end.

(** The URL a thread has popped and not yet appended. *)
Definition popped_url (l : Local) : option string :=
  if popped (at_pc l) then Some (page_url l) else None.

(** Everything that ever entered the queue, in order of entry. *)
Definition frontier_log (s : State) : list string :=
  g_urls_already_processed s ++ omap popped_url (threads s)
  ++ g_urls_to_be_processed s.

(** The lock is taken exactly while one thread is inside a critical
    section; the print semaphore is at most 1, and 0 while somebody
    prints. *)
Definition locks_ok (s : State) : Prop :=
  lock_bit (g_url_condition_lock s) = tsum (at_any holds_lock) (threads s)
  ∧ g_print_lock s + tsum (at_any printing) (threads s) ≤ 1.

(** Past line 100 the locals hold the links of the thread's page, and the
    print loop iterates over a suffix of them. *)
Definition links_ok (fetch : string → option (list string)) (s : State)
    : Prop :=
  ∀ t l, threads s !! t = Some l →
  (has_links (at_pc l) = true → fetch (page_url l) = Some (page_links l))
  ∧ (at_pc l = L115 → for_rest l `suffix_of` page_links l).

(** A block of a processed page. *)
Definition page_block (fetch : string → option (list string)) (s : State)
    (b : string * list string) : Prop :=
  fetch b.1 = Some b.2 ∧ b.1 ∈ g_urls_already_processed s.

(** The first lines of a page block, short of its last link at least:
    what a print that raised has left behind. *)
Definition cut_block (fetch : string → option (list string)) (s : State)
    (cut : list string) : Prop :=
  ∃ b k, page_block fetch s b ∧ k ≤ length b.2 ∧ cut = take k (block b).

(** Standard output is whole blocks of processed pages, then what the
    thread inside the print section has written, or else what a print
    that raised has left of its block. *)
Definition blocks_ok (fetch : string → option (list string)) (s : State)
    : Prop :=
  ∃ bs cut, Forall (page_block fetch s) bs
            ∧ stdout s = concat (block <$> bs)
                         ++ concat (printed_so_far <$> threads s) ++ cut
            ∧ ((cut = [] ∧ print_lock_intact s)
               ∨ (g_print_lock s = 0
                  ∧ tsum (at_any printing) (threads s) = 0
                  ∧ cut_block fetch s cut)).

(** Still has statements to execute before it returns or sleeps; a
    crashed thread is listed because it never gives up its count. *)
Definition carries_on (p : pc) : bool :=
  match p with
  | L92_blocked | Returned | L84 | L89 => false
  | _ => true
  end.

(** What keeps sleepers from being forgotten while no print has raised:
    a thread about to sleep has seen the counter positive and the done
    flag unset; while somebody sleeps, somebody else carries on; and once
    the done flag is set the thread that set it is about to wake the
    sleepers. *)
Definition alive_ok (s : State) : Prop :=
  (∀ t l, threads s !! t = Some l →
     (at_pc l = L92 →
      (1 ≤ g_num_threads_processing s)%Z ∧ g_all_done s = false)
     ∧ (at_pc l = L84 → g_all_done s = true))
  ∧ (∀ w lw, threads s !! w = Some lw → at_pc lw = L92_blocked →
       (∃ t l, threads s !! t = Some l ∧ carries_on (at_pc l) = true)
       ∧ (g_all_done s = true →
          ∃ t l, threads s !! t = Some l ∧ at_pc l = L88)).

(** [urlopen] has been attempted on the thread's URL and the publish has
    not finished. *)
Definition publishing_links (p : pc) : bool :=
  match p with
  | L102 | L103 => true
  | _ => false
  end.

(** A URL is the starting URL or a link of a page whose fetch was
    attempted and succeeded. *)
Definition discovered (fetch : string → option (list string))
    (u0 : string) (tr : list Event) (u : string) : Prop :=
  u = u0 ∨ ∃ p links, p ∈ fetched_urls tr ∧ fetch p = Some links ∧ u ∈ links.

Definition provenance_ok (fetch : string → option (list string))
    (u0 : string) (tr : list Event) (s : State) : Prop :=
  (∀ u, u ∈ g_urls_to_be_processed s → discovered fetch u0 tr u)
  ∧ (∀ u, u ∈ g_urls_already_processed s → discovered fetch u0 tr u)
  ∧ ∀ t l, threads s !! t = Some l →
      (at_pc l = L79 → discovered fetch u0 tr (page_url l))
      ∧ (publishing_links (at_pc l) = true → page_url l ∈ fetched_urls tr)
      ∧ (at_pc l = L103 → for_rest l `suffix_of` page_links l).

(** ** Lists, occurrences, weights *)

Lemma is_in_occ u urls : is_in u urls = false ↔ occ u urls = 0.
Proof.
  induction urls as [|x urls IH]; simpl; [done|].
  destruct (String.eqb u x); simpl; [split; [done | lia] | exact IH].
Qed.

Lemma occ_app u xs ys : occ u (xs ++ ys) = occ u xs + occ u ys.
Proof. induction xs as [|x xs IH]; simpl; [done | rewrite IH; lia]. Qed.

Lemma occ_self u : occ u [u] = 1.
Proof. simpl. by rewrite String.eqb_refl. Qed.

Lemma occ_other u v : u ≠ v → occ u [v] = 0.
Proof.
  intros Hne. simpl. destruct (String.eqb u v) eqn:E; [|done].
  by apply String.eqb_eq in E.
Qed.

Lemma occ_pos u urls : u ∈ urls ↔ 0 < occ u urls.
Proof.
  induction urls as [|x urls IH]; simpl.
  - split; [by intros ?%elem_of_nil | lia].
  - rewrite elem_of_cons, IH. destruct (String.eqb u x) eqn:E.
    + apply String.eqb_eq in E. split; [lia | by left].
    + apply String.eqb_neq in E. split; [intros [?|?]; [done | lia] | by right].
Qed.

Lemma occ_NoDup urls : (∀ u, occ u urls ≤ 1) → NoDup urls.
Proof.
  induction urls as [|x urls IH]; intros H; constructor.
  - intros Hin%occ_pos. specialize (H x). simpl in H.
    rewrite String.eqb_refl in H. lia.
  - apply IH. intros u. specialize (H u). simpl in H. lia.
Qed.


Lemma tsum_nil w : tsum w [] = 0.
Proof. done. Qed.

Lemma tsum_cons w l ths : tsum w (l :: ths) = w l + tsum w ths.
Proof. done. Qed.

Lemma tsum_insert w ths t l l' :
  ths !! t = Some l → tsum w (<[t:=l']> ths) + w l = tsum w ths + w l'.
Proof.
  revert t. induction ths as [|x ths IH]; intros [|t] H; simplify_eq/=.
  - rewrite !tsum_cons. lia.
  - rewrite !tsum_cons. specialize (IH _ H). lia.
Qed.

Lemma tsum_fmap w f ths :
  (∀ l, w (f l) = w l) → tsum w (f <$> ths) = tsum w ths.
Proof.
  intros H. induction ths as [|x ths IH]; [done|].
  rewrite fmap_cons, !tsum_cons, H, IH. done.
Qed.

Lemma tsum_replicate w n l : w l = 0 → tsum w (replicate n l) = 0.
Proof.
  intros H. induction n as [|n IH]; [done|].
  simpl. rewrite tsum_cons, H, IH. done.
Qed.

Lemma tsum_zero w ths :
  tsum w ths = 0 ↔ ∀ t l, ths !! t = Some l → w l = 0.
Proof.
  induction ths as [|x ths IH].
  - split; [by intros _ t l ? | done].
  - rewrite tsum_cons. split.
    + intros H [|t] l Hl; simplify_eq/=; [lia|].
      apply IH in Hl; [done | lia].
    + intros H. rewrite (H 0 x eq_refl). simpl. apply IH.
      intros t l Hl. exact (H (S t) l Hl).
Qed.

Lemma tsum_le_length ps ths : tsum (at_any ps) ths ≤ length ths.
Proof.
  induction ths as [|l ths IH]; [done|].
  rewrite tsum_cons. unfold at_any at 1. simpl. destruct (ps (at_pc l)); lia.
Qed.

Lemma tsum_pos w ths :
  0 < tsum w ths → ∃ t l, ths !! t = Some l ∧ 0 < w l.
Proof.
  induction ths as [|x ths IH]; [rewrite tsum_nil; lia|].
  rewrite tsum_cons. destruct (w x) eqn:E.
  - intros H. destruct IH as (t & l & Hl & Hw); [lia|].
    by exists (S t), l.
  - intros _. exists 0, x. split; [done | lia].
Qed.

Lemma tsum_lookup_le w ths t l : ths !! t = Some l → w l ≤ tsum w ths.
Proof.
  revert t. induction ths as [|x ths IH]; intros [|t] H; simplify_eq/=.
  - rewrite tsum_cons. lia.
  - rewrite tsum_cons. specialize (IH _ H). lia.
Qed.

Lemma dequeued_urls_app tr tr' :
  dequeued_urls (tr ++ tr') = dequeued_urls tr ++ dequeued_urls tr'.
Proof.
  induction tr as [|[]]; simpl; [done | by f_equal | done].
Qed.

Lemma fetched_urls_app tr tr' :
  fetched_urls (tr ++ tr') = fetched_urls tr ++ fetched_urls tr'.
Proof.
  induction tr as [|[]]; simpl; [done | done | by f_equal].
Qed.

Lemma wake_holds l : holds_lock (at_pc (wake l)) = holds_lock (at_pc l).
Proof. unfold wake. by destruct (at_pc l) eqn:E; simpl; rewrite ?E. Qed.

Lemma wake_page_url l : page_url (wake l) = page_url l.
Proof. unfold wake. by destruct (at_pc l). Qed.

Lemma wake_pc l :
  at_pc (wake l) = if blocked (at_pc l) then L92_woken else at_pc l.
Proof. unfold wake. by destruct (at_pc l) eqn:E; simpl; rewrite ?E. Qed.

(** ** Link extraction *)

Lemma links_loop_omap p found links :
  links_loop p found links = links ++ omap (link_url_of p) found.
Proof.
  revert links. induction found as [|link found IH]; intros links; simpl.
  - by rewrite app_nil_r.
  - destruct (link_url_of p link); rewrite IH; [|done].
    by rewrite <- app_assoc.
Qed.

Lemma Tag_get_a_href h : Tag_get "href" (a_href h) = Some h.
Proof. unfold Tag_get, a_href; simpl. apply lookup_singleton_eq. Qed.


Lemma length_slice_0 n str : String.length (substring 0 n str) ≤ n.
Proof.
  revert str. induction n as [|n IH]; intros [|c str]; simpl; try lia.
  specialize (IH str). lia.
Qed.

(** The slice [path_or_url[0:3]] has at most three characters, "http" has
    four. *)
Lemma slice_0_3_is_not_http path_or_url :
  String.eqb (substring 0 3 path_or_url) "http" = false.
Proof.
  apply String.eqb_neq. intros H.
  pose proof (length_slice_0 3 path_or_url) as Hlen.
  rewrite H in Hlen. simpl in Hlen. lia.
Qed.

(** Only hrefs that start with a slash are kept. *)
Lemma link_url_of_kept p link link_url :
  link_url_of p link = Some link_url →
  ∃ path_or_url, Tag_get "href" link = Some path_or_url
                 ∧ first_is_slash path_or_url = true
                 ∧ link_url = p +:+ path_or_url.
Proof.
  unfold link_url_of. destruct (Tag_get "href" link) as [h|]; [|done].
  destruct (String.length h =? 0); [done|].
  destruct (first_is_slash h) eqn:E.
  - intros [= <-]. eauto.
  - by rewrite slice_0_3_is_not_http.
Qed.

(** ** Invariants of the worker pool *)

Lemma lookup_resume t l' s t' l'' :
  threads (resume t l' s) !! t' = Some l'' →
  (t' = t ∧ l'' = l') ∨ (t' ≠ t ∧ threads s !! t' = Some l'').
Proof.
  unfold resume; simpl.
  intros [(->&->&_)|[? ?]]%list_lookup_insert_Some; eauto.
Qed.

Lemma lookup_notify_all s t' l'' :
  threads (notify_all s) !! t' = Some l'' →
  ∃ l0, threads s !! t' = Some l0 ∧ l'' = wake l0.
Proof.
  unfold notify_all; simpl. rewrite list_lookup_fmap.
  destruct (threads s !! t') as [l0|]; simpl; [|done].
  intros [= <-]. eauto.
Qed.

Lemma length_pos_false (q : list string) : (0 <? length q) = false → q = [].
Proof. by destruct q. Qed.

Lemma length_pos_true (q : list string) : (0 <? length q) = true → q ≠ [].
Proof. by destruct q. Qed.

Section Pool.

Variable urlparse : string → option ParseResult.
Variable findAll_a : string → option (list Tag).
Variable Request_ok : string → bool.
Variable urlopen_read_decode : string → option string.
Variable print_ok : list string → string → bool.

Abbreviation stepW :=
  (step urlparse findAll_a Request_ok urlopen_read_decode print_ok).
Abbreviation execW :=
  (exec urlparse findAll_a Request_ok urlopen_read_decode print_ok).
Abbreviation runW :=
  (run urlparse findAll_a Request_ok urlopen_read_decode print_ok).
Abbreviation fetch_linksW :=
  (fetch_links urlparse findAll_a urlopen_read_decode).
Abbreviation publish_runW :=
  (publish_run urlparse findAll_a Request_ok urlopen_read_decode print_ok).

(** Case analysis on the statement executed by [step t s = Some s']. *)
Ltac step_cases H l Hl Hpc :=
  unfold step in H;
  match type of H with
  | context [threads ?s !! ?t] =>
      destruct (threads s !! t) as [l|] eqn:Hl; [|discriminate H]
  end;
  unfold statement in H;
  destruct (at_pc l) eqn:Hpc;
  repeat match type of H with
    | context [match ?x with _ => _ end] => destruct x eqn:?
    end;
  try discriminate H;
  injection H as <-.

Lemma threads_ok_step t s s' :
  stepW t s = Some s' → threads_ok s → threads_ok s'.
Proof.
  intros H Hok. pose proof Hok as Hok'.
  step_cases H l Hl Hpc; specialize (Hok' t l Hl); unfold thread_ok in Hok';
    rewrite Hpc in Hok'; simpl in Hok';
    try (destruct (Hok' eq_refl) as (Hlk & H78 & Hqe & Hdn); clear Hok');
    intros t' l'' Hl'';
    (apply lookup_resume in Hl'' as [[-> ->]|[Hne Hl'']];
     [ unfold thread_ok; simpl; rewrite ?Hpc; simpl;
       intros Hh; try discriminate Hh;
       simpl in *; repeat split; intros; try congruence;
       eauto using length_pos_false, length_pos_true
     | try (apply lookup_notify_all in Hl'' as (l0 & Hl'' & ->));
       simpl in Hl''; unfold thread_ok; rewrite ?wake_holds; intros Hh;
       destruct (Hok _ _ Hl'' Hh) as (Hlk' & H78' & Hqe'); simpl in *;
       first [ congruence | exact (conj Hlk' (conj H78' Hqe')) ] ]).
Qed.

Lemma at_any_wake ps :
  ps L92_blocked = ps L92_woken → ∀ l, at_any ps (wake l) = at_any ps l.
Proof.
  intros H l. unfold at_any. rewrite wake_pc.
  destruct (at_pc l); simpl; by rewrite <- ?H.
Qed.

Lemma at_any_with_wake ps u :
  ps L92_blocked = ps L92_woken →
  ∀ l, at_any_with ps u (wake l) = at_any_with ps u l.
Proof.
  intros H l. unfold at_any_with. rewrite wake_pc, wake_page_url.
  destruct (at_pc l); simpl; by rewrite <- ?H.
Qed.

Lemma tsum_insert_wake w ths t l l' :
  (∀ x, w (wake x) = w x) → ths !! t = Some l →
  tsum w (<[t:=l']> (wake <$> ths)) + w l = tsum w ths + w l'.
Proof.
  intros Hw Hl.
  pose proof (tsum_insert w (wake <$> ths) t (wake l) l') as H.
  rewrite list_lookup_fmap, Hl, Hw, (tsum_fmap w wake ths Hw) in H.
  by apply H.
Qed.

(** While a thread other than a popper holds the lock, nobody sits
    between the pop and the append. *)
Lemma no_popped s t l u :
  threads_ok s → threads s !! t = Some l →
  holds_lock (at_pc l) = true → at_pc l ≠ L79 →
  tsum (at_any_with popped u) (threads s) = 0.
Proof.
  intros Hok Hl Hh Hne. apply tsum_zero. intros t' l' Hl'.
  unfold at_any_with. destruct (at_pc l') eqn:E; simpl; try done.
  destruct (Hok _ _ Hl Hh) as [Hlk _].
  destruct (Hok t' l' Hl') as [Hlk' _]; [by rewrite E|].
  congruence.
Qed.

(** Replace the weight sums of the post-state by fresh numbers tied to
    the pre-state. *)
Ltac tsum_step Hl :=
  repeat match goal with
    | |- context [tsum ?w (<[?t:=?l']> (wake <$> ?ths))] =>
        let E := fresh "E" in
        pose proof (tsum_insert_wake w ths t _ l'
                      ltac:(first [ apply at_any_wake; reflexivity
                                  | apply at_any_with_wake; reflexivity ])
                      Hl) as E;
        generalize dependent (tsum w (<[t:=l']> (wake <$> ths))); intros
    | |- context [tsum ?w (<[?t:=?l']> ?ths)] =>
        let E := fresh "E" in
        pose proof (tsum_insert w ths t _ l' Hl) as E;
        generalize dependent (tsum w (<[t:=l']> ths)); intros
    end.

Lemma counts_ok_step tr t s s' :
  threads_ok s → counts_ok tr s → stepW t s = Some s' →
  counts_ok (tr ++ observe t s) s'.
Proof.
  intros Hok (HU & HD & HF & HC) H.
  step_cases H l Hl Hpc; pose proof (Hok t l Hl) as Hokt;
    unfold thread_ok in Hokt;
    rewrite Hpc in Hokt; simpl in Hokt.
  all: unfold counts_ok, observe, event; rewrite Hl, Hpc; simpl.
  all: repeat split; try intros u; try specialize (HU u); try specialize (HD u); try specialize (HF u).
  all: rewrite ?dequeued_urls_app, ?fetched_urls_app, ?occ_app; simpl.
  all: try (assert (tsum (at_any_with popped u) (threads s) = 0)
             by (apply (no_popped s t l u Hok Hl); rewrite Hpc; done)).
  all: tsum_step Hl.
  all: unfold at_any, at_any_with in *; simpl in *; rewrite ?Hpc in *; simpl in *.
  all: try lia.
  all: try (exfalso; destruct (Hokt eq_refl) as (_ & H78 & _); by apply H78).
  all: try match goal with
         | Hq : g_urls_to_be_processed _ = _ |- _ => rewrite ?Hq in *
         end; simpl in *.
  all: try match goal with
         | Hb : negb (is_in _ _) && negb (is_in _ _) = true |- _ =>
             apply andb_prop in Hb as [Hv Hp];
             apply negb_true_iff in Hv, Hp; apply is_in_occ in Hv, Hp
         end.
  all: repeat match goal with
         | |- context [String.eqb ?u ?x] =>
             destruct (String.eqb_spec u x) as [->|]
         end.
  all: try lia.
Qed.

Lemma lookup_resume_eq t l l' s :
  threads s !! t = Some l → threads (resume t l' s) !! t = Some l'.
Proof.
  intros Hl. unfold resume; simpl. apply list_lookup_insert_eq.
  by eapply lookup_lt_Some.
Qed.

Lemma lookup_resume_ne t t' l' s :
  t' ≠ t → threads (resume t l' s) !! t' = threads s !! t'.
Proof. intros Hne. unfold resume; simpl. by apply list_lookup_insert_ne. Qed.

Lemma wake_not_blocked l : at_pc (wake l) ≠ L92_blocked.
Proof. rewrite wake_pc. by destruct (at_pc l). Qed.

Lemma waiters_ok_step t s s' :
  threads_ok s → waiters_ok s → stepW t s = Some s' → waiters_ok s'.
Proof.
  intros Hok Hw H.
  step_cases H l Hl Hpc; pose proof (Hok t l Hl) as Hokt;
    unfold thread_ok in Hokt; rewrite Hpc in Hokt; simpl in Hokt;
    try (destruct (Hokt eq_refl) as (Hlk & H78 & Hqe & Hdn); clear Hokt);
    intros w lw Hlw Hb;
    (apply lookup_resume in Hlw as [[-> ->]|[Hne Hlw]];
     [ simpl in Hb; rewrite ?Hpc in Hb; try discriminate Hb
     | first
         [ apply lookup_notify_all in Hlw as (lx & Hlw & ->);
           by apply wake_not_blocked in Hb
         | simpl in Hlw;
           destruct (Hw w lw Hlw Hb) as [Hempty | (tx & lx & Hl0 & Hins)];
           [ | destruct (decide (tx = t)) as [->|Hne0];
               [ rewrite Hl in Hl0; injection Hl0 as <-;
                 rewrite Hpc in Hins; try discriminate Hins
               | right; exists tx, lx; split; [|done];
                 rewrite lookup_resume_ne by done; simpl; done ] ] ] ]).
  all: try (left; simpl; first [ assumption | by apply length_pos_false
                               | by apply Hqe ]).
  all: try (right; exists t; eexists; split;
            [ by apply (lookup_resume_eq _ l) | by simpl; rewrite ?Hpc ]).
  all: try (exfalso; simpl in *; congruence).
Qed.

Lemma wake_claimed l : claimed (at_pc (wake l)) = claimed (at_pc l).
Proof. rewrite wake_pc. by destruct (at_pc l). Qed.

Lemma urls_ok_step t s s' :
  urls_ok s → stepW t s = Some s' → urls_ok s'.
Proof.
  intros Hu H.
  step_cases H l Hl Hpc; pose proof (Hu t l Hl) as Hut;
    rewrite Hpc in Hut; simpl in Hut;
    intros t' l'' Hl'' Hc;
    (apply lookup_resume in Hl'' as [[-> ->]|[Hne Hl'']];
     [ simpl in *; rewrite ?Hpc in Hc; try discriminate Hc
     | try (apply lookup_notify_all in Hl'' as (lx & Hl'' & ->);
            rewrite wake_claimed in Hc; rewrite wake_page_url);
       simpl in *; pose proof (Hu _ _ Hl'' Hc) ]);
    rewrite ?elem_of_app, ?list_elem_of_singleton; auto.
Qed.

(** Nothing ever leaves [g_urls_already_processed]. *)
Lemma visited_step t s s' u :
  stepW t s = Some s' →
  u ∈ g_urls_already_processed s → u ∈ g_urls_already_processed s'.
Proof.
  intros H Hin. step_cases H l Hl Hpc; simpl; try done.
  apply elem_of_app. by left.
Qed.

Lemma visited_exec s tr s' u :
  execW s tr s' →
  u ∈ g_urls_already_processed s → u ∈ g_urls_already_processed s'.
Proof. induction 1; eauto using visited_step. Qed.

Lemma lookup_main n u0 t l : threads (main n u0) !! t = Some l → l = thread0.
Proof. simpl. by intros [-> _]%lookup_replicate. Qed.

Lemma urls_ok_main n u0 : urls_ok (main n u0).
Proof. by intros t l ->%lookup_main. Qed.

Lemma urls_ok_exec s0 tr s : urls_ok s0 → execW s0 tr s → urls_ok s.
Proof. induction 2; eauto using urls_ok_step. Qed.

Lemma threads_ok_main n u0 : threads_ok (main n u0).
Proof. intros t l ->%lookup_main. by intros ?. Qed.

Lemma waiters_ok_main n u0 : waiters_ok (main n u0).
Proof. by intros t l ->%lookup_main. Qed.

Lemma counts_ok_main n u0 : counts_ok [] (main n u0).
Proof.
  unfold counts_ok; simpl.
  rewrite tsum_replicate by done.
  repeat split; intros; rewrite ?tsum_replicate by done; simpl; try lia.
  destruct (String.eqb u u0); lia.
Qed.

(** The three invariants hold along every run of the pool. *)
Lemma exec_invariants s0 tr0 tr s :
  threads_ok s0 → waiters_ok s0 → counts_ok tr0 s0 →
  execW s0 tr s →
  threads_ok s ∧ waiters_ok s ∧ counts_ok (tr0 ++ tr) s.
Proof.
  intros H1 H2 H3 Hex. induction Hex as [|tr s t s' _ (I1 & I2 & I3) Hst].
  - by rewrite app_nil_r.
  - rewrite app_assoc. split; [by eapply threads_ok_step|].
    split; [by eapply waiters_ok_step | by apply counts_ok_step].
Qed.

Lemma main_invariants n u0 tr s :
  execW (main n u0) tr s → threads_ok s ∧ waiters_ok s ∧ counts_ok tr s.
Proof.
  apply (exec_invariants _ []);
    auto using threads_ok_main, waiters_ok_main, counts_ok_main.
Qed.

Lemma exec_trans s0 tr s tr' s' :
  execW s0 tr s → execW s tr' s' → execW s0 (tr ++ tr') s'.
Proof.
  intros H0 H. induction H as [|tr' s1 t s2 _ IH Hst].
  - by rewrite app_nil_r.
  - rewrite app_assoc. by econstructor.
Qed.

Lemma exec_one s t s' : stepW t s = Some s' → execW s (observe t s) s'.
Proof.
  intros H. apply (exec_step _ _ _ _ _ s [] s t s'); [constructor | done].
Qed.

(** The function [run] produces runs. *)
Lemma run_exec sched s tr s' : runW sched s = Some (tr, s') → execW s tr s'.
Proof.
  revert s tr. induction sched as [|t sched IH]; intros s tr; simpl.
  - intros [= <- <-]. constructor.
  - destruct (stepW t s) as [s1|] eqn:Hst; [|done].
    destruct (runW sched s1) as [[tr1 s2]|] eqn:Hrun; [|done].
    intros [= <- <-]. eapply exec_trans; [by apply exec_one | by apply IH].
Qed.


(** ** Running one thread line by line *)

Lemma run_cons t sched s l s1 tr tr' s2 :
  threads s !! t = Some l → statement urlparse findAll_a Request_ok
                              urlopen_read_decode print_ok t l s = Some s1 →
  runW sched s1 = Some (tr, s2) → tr' = event t l s ++ tr →
  runW (t :: sched) s = Some (tr', s2).
Proof.
  intros Hl Hst Hrun ->. simpl. unfold step, observe.
  by rewrite Hl, Hst, Hrun.
Qed.

Lemma run_nil s : runW [] s = Some ([], s).
Proof. done. Qed.

Lemma lookup_resume_lt t l' s :
  t < length (threads s) → threads (resume t l' s) !! t = Some l'.
Proof. intros Hlt. unfold resume; simpl. by apply list_lookup_insert_eq. Qed.

Lemma run_app sched sched' s :
  runW (sched ++ sched') s
  = match runW sched s with
    | None => None
    | Some (tr, s1) =>
        match runW sched' s1 with
        | None => None
        | Some (tr', s2) => Some (tr ++ tr', s2)
        end
    end.
Proof.
  revert s. induction sched as [|t sched IH]; intros s; simpl.
  - by destruct (runW sched' s) as [[]|].
  - destruct (stepW t s) as [s1|]; [|done]. rewrite IH.
    destruct (runW sched s1) as [[tr s2]|]; [|done].
    destruct (runW sched' s2) as [[tr' s3]|]; [|done].
    by rewrite app_assoc.
Qed.

(** ** The lock and the print semaphore *)

Lemma locks_ok_step t s s' :
  threads_ok s → locks_ok s → stepW t s = Some s' → locks_ok s'.
Proof.
  intros Hok [HL HP] H.
  step_cases H l Hl Hpc; pose proof (Hok t l Hl) as Hokt;
    unfold thread_ok in Hokt; rewrite Hpc in Hokt; simpl in Hokt.
  all: try (destruct (Hokt eq_refl) as (Hlk & _); rewrite Hlk in HL).
  all: try match goal with
         | Hq : g_url_condition_lock _ = None |- _ => rewrite Hq in HL
         end.
  all: unfold locks_ok; simpl.
  all: tsum_step Hl.
  all: unfold at_any in *; simpl in *; rewrite ?Hpc in *; simpl in *.
  all: try match goal with
         | Hq : g_url_condition_lock _ = _ |- _ => rewrite ?Hq
         end; simpl.
  all: try lia.
  exfalso. destruct (Hokt eq_refl) as (_ & H78 & _). by apply H78.
Qed.

Lemma locks_ok_main n u0 : locks_ok (main n u0).
Proof.
  unfold locks_ok; simpl. by rewrite !tsum_replicate by done.
Qed.

Lemma locks_ok_exec n u0 tr s : execW (main n u0) tr s → locks_ok s.
Proof.
  intros Hex.
  assert (threads_ok s ∧ locks_ok s) as [_ ?]; [|done].
  induction Hex as [|tr s t s' _ [I1 I2] Hst].
  - split; [apply threads_ok_main | apply locks_ok_main].
  - split; [by eapply threads_ok_step | by eapply locks_ok_step].
Qed.

(** ** The frontier *)


(** C4. The URLs dequeued along a run are pairwise distinct, and so are
    the URLs whose fetch is attempted. *)
Theorem no_duplicate_claims n u0 tr s :
  execW (main n u0) tr s →
  NoDup (dequeued_urls tr) ∧ NoDup (fetched_urls tr).
Proof.
  intros (_ & _ & HU & HD & HF & _)%main_invariants.
  split; apply occ_NoDup; intros u;
    specialize (HU u); specialize (HD u); specialize (HF u); lia.
Qed.


(** Execute the next line of the schedule; [rew] rewrites with the facts
    known about the globals. *)
Ltac line Hlt rew :=
  eapply run_cons;
  [ first [ eassumption
          | apply lookup_resume_lt; simpl;
            repeat (rewrite length_insert || rewrite length_fmap);
            exact Hlt ]
  | unfold statement; simpl; rew; simpl; reflexivity
  | | ].


(** An ended thread stays as it is. *)
Lemma crashed_step t s s' t0 l0 :
  stepW t s = Some s' → threads s !! t0 = Some l0 → at_pc l0 = Crashed →
  threads s' !! t0 = Some l0.
Proof.
  intros H Hl0 Hcr. destruct (decide (t0 = t)) as [->|Hne].
  - unfold step, statement in H. by rewrite Hl0, Hcr in H.
  - step_cases H l Hl Hpc; (rewrite lookup_resume_ne by done); simpl;
      try done.
    all: rewrite list_lookup_fmap, Hl0; simpl; unfold wake; by rewrite Hcr.
Qed.

Lemma crashed_exec s tr s' t0 l0 :
  execW s tr s' → threads s !! t0 = Some l0 → at_pc l0 = Crashed →
  threads s' !! t0 = Some l0.
Proof. induction 1; eauto using crashed_step. Qed.

(** C5 (the code departs from it). Line 95 builds the request outside the
    [try] block. When [urllib.request.Request] raises there, no handler
    runs: the thread ends without a decrement, and for the rest of the run
    it executes no statement, so it never claims another URL. Until a
    print raises the counter stays positive from then on, so no thread
    can decide termination at line 86. The URL stays in the processed list
    and out of the queue, and is never handed to [urlopen]. *)
Theorem request_failure_ends_worker n u0 tr s t l :
  execW (main n u0) tr s →
  threads s !! t = Some l → at_pc l = L95 →
  Request_ok (page_url l) = false →
  ∃ s', stepW t s = Some s'
        ∧ threads s' !! t = Some (set_pc Crashed l)
        ∧ others_same t s s'
        ∧ same_queues s s'
        ∧ stdout s' = stdout s
        ∧ g_num_threads_processing s' = g_num_threads_processing s
        ∧ ∀ tr' s2, execW s' tr' s2 →
            threads s2 !! t = Some (set_pc Crashed l)
            ∧ stepW t s2 = None
            ∧ (print_lock_intact s2 → (1 ≤ g_num_threads_processing s2)%Z)
            ∧ page_url l ∈ g_urls_already_processed s2
            ∧ (page_url l ∉ g_urls_to_be_processed s2)
            ∧ page_url l ∉ fetched_urls (tr ++ tr').
Proof.
  intros Hex Hl Hpc Hrej.
  assert (Hst : stepW t s = Some (resume t (set_pc Crashed l) s)).
  { unfold step, statement. by rewrite Hl, Hpc, Hrej. }
  assert (Hobs : observe t s = []).
  { unfold observe, event. by rewrite Hl, Hpc. }
  eexists. split; [exact Hst|]. split_and!; try done.
  - by apply (lookup_resume_eq _ l).
  - intros t' Hne. by apply lookup_resume_ne.
  - intros tr' s2 Hex2.
    assert (Hl2 : threads s2 !! t = Some (set_pc Crashed l)).
    { eapply crashed_exec; [exact Hex2 | | done].
      by apply (lookup_resume_eq _ l). }
    pose proof (exec_trans _ _ _ _ _
                  (exec_trans _ _ _ _ _ Hex (exec_one _ _ _ Hst)) Hex2)
      as Hall.
    rewrite Hobs, app_nil_r in Hall.
    destruct (main_invariants _ _ _ _ Hall) as (_ & _ & HU & HD & HF & HC).
    specialize (HU (page_url l)); specialize (HD (page_url l));
      specialize (HF (page_url l)).
    pose proof (tsum_lookup_le (at_any_with before_fetch (page_url l))
                  _ _ _ Hl2) as Hle.
    unfold at_any_with in Hle at 1. simpl in Hle.
    rewrite String.eqb_refl in Hle. simpl in Hle.
    pose proof (tsum_lookup_le (at_any counted) _ _ _ Hl2) as Hc.
    unfold at_any in Hc at 1. simpl in Hc.
    assert (Hin : page_url l ∈ g_urls_already_processed s2).
    { eapply visited_exec; [exact Hex2|]. simpl.
      eapply (urls_ok_exec _ _ _ (urls_ok_main n u0) Hex); [done|].
      by rewrite Hpc. }
    split_and!; try done.
    + unfold step, statement. by rewrite Hl2.
    + unfold print_lock_intact. lia.
    + intros Hp%occ_pos. apply occ_pos in Hin. lia.
    + rewrite occ_pos. lia.
Qed.

(** X15. A failure raised by lines 97-100 ([urlopen], [read], [decode] or
    the link extraction) is contained: the handler takes the lock, decrements
    the counter and releases the lock again; the thread is back at line
    74. Queue, processed list, standard output and print semaphore are as
    before, the other threads are untouched, and the URL stays in the
    processed list and out of the queue for the rest of the run. *)
Theorem handled_failure_is_contained n u0 tr s t l :
  execW (main n u0) tr s →
  threads s !! t = Some l → at_pc l = L97 →
  fetch_linksW (page_url l) = None →
  g_url_condition_lock s = None →
  ∃ s', runW [t; t; t; t] s = Some ([EvFetch t (page_url l)], s')
        ∧ threads s' !! t = Some (set_pc L74 l)
        ∧ others_same t s s'
        ∧ same_queues s s'
        ∧ stdout s' = stdout s
        ∧ g_num_threads_processing s'
          = (g_num_threads_processing s - 1)%Z
        ∧ g_url_condition_lock s' = None
        ∧ g_print_lock s' = g_print_lock s
        ∧ page_url l ∈ g_urls_already_processed s'
        ∧ ∀ tr' s2, execW s' tr' s2 →
                    page_url l ∈ g_urls_already_processed s2
                    ∧ page_url l ∉ g_urls_to_be_processed s2.
Proof.
  intros Hex Hl Hpc Hfail Hlk.
  assert (Hin : page_url l ∈ g_urls_already_processed s).
  { eapply (urls_ok_exec _ _ _ (urls_ok_main n u0) Hex); [done|].
    by rewrite Hpc. }
  assert (Hlt : t < length (threads s)) by by eapply lookup_lt_Some.
  destruct l as [p url links rest]; simpl in Hpc, Hfail, Hin; subst p.
  eexists. split; [|split_and!].
  - line Hlt ltac:(rewrite ?Hfail). line Hlt ltac:(rewrite ?Hlk).
    line Hlt idtac. line Hlt idtac. apply run_nil. done. done. done. done.
  - simpl. by rewrite list_lookup_insert_eq by (by rewrite ?length_insert).
  - intros t' Hne. simpl. by rewrite !list_lookup_insert_ne.
  - done.
  - done.
  - done.
  - done.
  - done.
  - done.
  - intros tr' s2 Hex2.
    match type of Hex2 with exec _ _ _ _ _ ?s1 _ _ => set (s' := s1) in * end.
    assert (Hrun : execW s [EvFetch t url] s').
    { apply (run_exec [t; t; t; t]).
      line Hlt ltac:(rewrite ?Hfail). line Hlt ltac:(rewrite ?Hlk).
      line Hlt idtac. line Hlt idtac. apply run_nil. done. done. done. done. }
    pose proof (exec_trans _ _ _ _ _ (exec_trans _ _ _ _ _ Hex Hrun) Hex2)
      as (_ & _ & HU & _)%main_invariants.
    assert (Hin2 : url ∈ g_urls_already_processed s2).
    { eapply visited_exec; [exact Hex2|]. done. }
    split; [done|]. intros Hp%occ_pos. apply occ_pos in Hin2.
    specialize (HU url). simpl in Hp. lia.
Qed.

(** ** Waking and sleeping *)

Lemma blocked_cannot_step t s l :
  threads s !! t = Some l → at_pc l = L92_blocked → stepW t s = None.
Proof. intros Hl Hpc. unfold step, statement. by rewrite Hl, Hpc. Qed.

(** A thread falls asleep only by executing line 92 itself. *)
Lemma new_waiter t s s' w lw :
  stepW t s = Some s' → threads s' !! w = Some lw → at_pc lw = L92_blocked →
  threads s !! w = Some lw
  ∨ (w = t ∧ ∃ l, threads s !! t = Some l ∧ at_pc l = L92).
Proof.
  intros H Hlw Hb.
  step_cases H l Hl Hpc;
    (apply lookup_resume in Hlw as [[-> ->]|[Hne Hlw]];
     [ simpl in Hb; rewrite ?Hpc in Hb; try discriminate Hb; right; eauto
     | first [ apply lookup_notify_all in Hlw as (lx & Hlw & ->);
               by apply wake_not_blocked in Hb
             | by left ] ]).
Qed.

(** Only the two [notify_all] lines change another thread. *)
Lemma wake_sites t s s' w :
  stepW t s = Some s' → w ≠ t → threads s' !! w ≠ threads s !! w →
  ∃ l, threads s !! t = Some l ∧ (at_pc l = L88 ∨ at_pc l = L108).
Proof.
  intros H Hne Hch.
  step_cases H l Hl Hpc;
    try (exfalso; apply Hch; by rewrite lookup_resume_ne);
    eauto.
Qed.

(** While a publish holds the lock nobody can fall asleep. *)
Lemma publish_no_waiters t s1 s2 :
  threads_ok s1 →
  (∀ w lw, threads s1 !! w = Some lw → at_pc lw ≠ L92_blocked) →
  publish_runW t s1 s2 →
  threads_ok s2
  ∧ ∀ w lw, threads s2 !! w = Some lw → at_pc lw ≠ L92_blocked.
Proof.
  intros Hok Hnone Hrun.
  induction Hrun as [|s t' s' _ [IHok IHnone] (l & Hl & Hins) Hst _];
    [done|].
  split; [by eapply threads_ok_step|].
  intros w lw Hlw Hb.
  destruct (new_waiter _ _ _ _ _ Hst Hlw Hb)
    as [Hold | (-> & l' & Hl' & Hpc')].
  - by eapply IHnone.
  - destruct (IHok t l Hl) as [Hlk _]; [by destruct (at_pc l)|].
    destruct (IHok t' l' Hl') as [Hlk' _]; [by rewrite Hpc'|].
    assert (t = t') as -> by congruence.
    rewrite Hl in Hl'. injection Hl' as ->. by rewrite Hpc' in Hins.
Qed.

(** When nobody is asleep [notify_all] changes nothing. *)
Lemma notify_nobody s :
  (∀ w lw, threads s !! w = Some lw → at_pc lw ≠ L92_blocked) →
  threads (notify_all s) = threads s.
Proof.
  intros Hnone. unfold notify_all; simpl. apply list_eq. intros i.
  rewrite list_lookup_fmap.
  destruct (threads s !! i) as [l|] eqn:E; simpl; [|done].
  f_equal. unfold wake. specialize (Hnone i l E). by destruct (at_pc l).
Qed.

(** C9. A sleeping worker is woken only by line 88, where termination
    has been decided, or by line 108 of a publish that found the queue
    empty when it took the lock and has filled it. In particular, while a
    publish that found the queue non-empty is under way no worker is
    asleep, so the [notify_all] it may reach at line 108 wakes nobody. *)
Theorem wake_needs_transition n u0 tr s :
  execW (main n u0) tr s →
  (∀ t s' w lw,
     stepW t s = Some s' →
     threads s !! w = Some lw → at_pc lw = L92_blocked →
     threads s' !! w ≠ Some lw →
     ∃ l, threads s !! t = Some l
          ∧ ((at_pc l = L88 ∧ g_all_done s = true)
             ∨ (at_pc l = L108
                ∧ g_urls_to_be_processed s ≠ []
                ∧ ∀ tr0 s0 l0 s1,
                    execW (main n u0) tr0 s0 →
                    threads s0 !! t = Some l0 → at_pc l0 = L102 →
                    stepW t s0 = Some s1 → publish_runW t s1 s →
                    g_urls_to_be_processed s0 = [])))
  ∧ (∀ t l s1 s2,
       threads s !! t = Some l → at_pc l = L102 →
       g_urls_to_be_processed s ≠ [] →
       stepW t s = Some s1 → publish_runW t s1 s2 →
       (∀ w lw, threads s2 !! w = Some lw → at_pc lw ≠ L92_blocked)
       ∧ threads (notify_all s2) = threads s2).
Proof.
  intros Hex.
  assert (Hquiet : ∀ tr0 s0 t l0 s1 s2,
            execW (main n u0) tr0 s0 →
            threads s0 !! t = Some l0 → at_pc l0 = L102 →
            g_urls_to_be_processed s0 ≠ [] →
            stepW t s0 = Some s1 → publish_runW t s1 s2 →
            ∀ w lw, threads s2 !! w = Some lw → at_pc lw ≠ L92_blocked).
  { intros tr0 s0 t l0 s1 s2 Hex0 Hl0 Hpc0 Hq0 Hst0 Hrun.
    destruct (main_invariants _ _ _ _ Hex0) as (Hok0 & Hw0 & _).
    assert (Hlk0 : g_url_condition_lock s0 = None).
    { unfold step, statement in Hst0. rewrite Hl0, Hpc0 in Hst0.
      by destruct (g_url_condition_lock s0). }
    assert (Hnone0 : ∀ w lw, threads s0 !! w = Some lw →
                             at_pc lw ≠ L92_blocked).
    { intros w0 lw0 Hlw0 Hb0.
      destruct (Hw0 w0 lw0 Hlw0 Hb0) as [He | (tx & lx & Hlx & Hins)];
        [done|].
      destruct (Hok0 tx lx Hlx) as [Hlkx _]; [by destruct (at_pc lx)|].
      congruence. }
    assert (Hnone1 : ∀ w lw, threads s1 !! w = Some lw →
                             at_pc lw ≠ L92_blocked).
    { intros w1 lw1 Hlw1 Hb1.
      destruct (new_waiter _ _ _ _ _ Hst0 Hlw1 Hb1)
        as [Hold | (-> & l' & Hl' & Hpc')].
      - by eapply Hnone0.
      - congruence. }
    pose proof (threads_ok_step _ _ _ Hst0 Hok0) as Hok1.
    by destruct (publish_no_waiters _ _ _ Hok1 Hnone1 Hrun) as [_ Hnone]. }
  split.
  - intros t s' w lw Hst Hlw Hb Hch.
    destruct (main_invariants _ _ _ _ Hex) as (Hok & _ & _).
    assert (Hne : w ≠ t).
    { intros ->. by rewrite (blocked_cannot_step _ _ _ Hlw Hb) in Hst. }
    destruct (wake_sites _ _ _ w Hst Hne) as (l & Hl & Hsite);
      [by rewrite Hlw|].
    exists l. split; [done|].
    destruct (Hok t l Hl) as (_ & Hq & _ & Hd);
      [by destruct Hsite as [-> | ->]|].
    destruct Hsite as [Hpc | Hpc]; [left | right].
    { split; [done|]. apply Hd. by rewrite Hpc. }
    split; [done|]. split; [apply Hq; by rewrite Hpc|].
    intros tr0 s0 l0 s1 Hex0 Hl0 Hpc0 Hst0 Hrun.
    destruct (g_urls_to_be_processed s0) as [|u q] eqn:Hq0; [done|].
    exfalso.
    assert (Hne0 : g_urls_to_be_processed s0 ≠ []) by by rewrite Hq0.
    exact (Hquiet tr0 s0 t l0 s1 s Hex0 Hl0 Hpc0 Hne0 Hst0 Hrun w lw Hlw Hb).
  - intros t l s1 s2 Hl Hpc Hq Hst Hrun.
    pose proof (Hquiet tr s t l s1 s2 Hex Hl Hpc Hq Hst Hrun) as Hnone.
    split; [done | by apply notify_nobody].
Qed.

(** ** Writes and the lock *)

(** The queue, the processed list and the done flag change only under
    the lock, and so does every decrement of the counter. *)
Lemma writes_under_lock n u0 tr s t s' :
  execW (main n u0) tr s → stepW t s = Some s' →
  g_urls_to_be_processed s' ≠ g_urls_to_be_processed s
  ∨ g_urls_already_processed s' ≠ g_urls_already_processed s
  ∨ g_all_done s' ≠ g_all_done s
  ∨ (g_num_threads_processing s' < g_num_threads_processing s)%Z →
  g_url_condition_lock s = Some t.
Proof.
  intros (Hok & _)%main_invariants H Hch.
  step_cases H l Hl Hpc; destruct (Hok t l Hl) as [Hlk _];
    rewrite ?Hpc; try done; simpl in Hch;
    exfalso; destruct Hch as [?|[?|[?|?]]]; try done; lia.
Qed.

(** ** One worker *)

Lemma step_length t s s' :
  stepW t s = Some s' →
  t < length (threads s) ∧ length (threads s') = length (threads s).
Proof.
  intros H. step_cases H l Hl Hpc; simpl;
    rewrite length_insert, ?length_fmap;
    (split; [by eapply lookup_lt_Some | done]).
Qed.

(** With a single thread every run is a run of thread 0 alone. *)
Lemma exec_single s0 tr s :
  length (threads s0) = 1 → execW s0 tr s →
  ∃ k, runW (replicate k 0) s0 = Some (tr, s) ∧ length (threads s) = 1.
Proof.
  intros H0 Hex. induction Hex as [|tr s t s' _ (k & Hrun & Hlen) Hst].
  - by exists 0.
  - destruct (step_length _ _ _ Hst) as [Hlt Hlen'].
    assert (t = 0) as -> by lia.
    exists (S k). split; [|congruence].
    rewrite replicate_S_end, run_app, Hrun. simpl. by rewrite Hst, app_nil_r.
Qed.

(** A thread running alone stops in one place. *)
Lemma run_alone_final t k : ∀ s0 k' tr s tr' s',
  runW (replicate k t) s0 = Some (tr, s) → stepW t s = None →
  runW (replicate k' t) s0 = Some (tr', s') → stepW t s' = None →
  tr' = tr ∧ s' = s.
Proof.
  induction k as [|k IH]; intros s0 [|k'] tr s tr' s'; simpl.
  - by intros [= <- <-] _ [= <- <-] _.
  - intros [= <- <-] Hs. by rewrite Hs.
  - destruct (stepW t s0) eqn:E; [|done]. intros _ _ [= <- <-] ?. congruence.
  - destruct (stepW t s0) as [s1|]; [|done].
    destruct (runW (replicate k t) s1) as [[tr1 s2]|] eqn:E1; [|done].
    destruct (runW (replicate k' t) s1) as [[tr1' s2']|] eqn:E2; [|done].
    intros [= <- <-] Hs [= <- <-] Hs'.
    destruct (IH _ _ _ _ _ _ E1 Hs E2 Hs') as [-> ->]. done.
Qed.

Lemma returned_cannot_step s :
  at_pc <$> threads s = [Returned] → stepW 0 s = None.
Proof.
  unfold step, statement. destruct (threads s) as [|l [|]]; try done.
  simpl. by intros [= ->].
Qed.

(** Execute the next line; the trace is read off afterwards. *)
Ltac line1 rew :=
  eapply run_cons;
  [ reflexivity
  | unfold statement; simpl; rew; simpl; reflexivity
  |
  | reflexivity ].

(** C8. One worker on the site where [A] links to [B], [B] links to [A]
    and [C], and [C] links to nothing, standard output taking every line:
    the pool terminates, and whenever it has, standard output holds the
    three blocks in the order A, B, C and exactly [A], [B], [C] have been
    dequeued. *)
Theorem chain_single_worker A B C :
  A ≠ B → A ≠ C → B ≠ C →
  Request_ok A = true → Request_ok B = true → Request_ok C = true →
  fetch_linksW A = Some [B] → fetch_linksW B = Some [A; C] →
  fetch_linksW C = Some [] →
  (∀ out line, print_ok out line = true) →
  (∃ tr s, execW (main 1 A) tr s
           ∧ at_pc <$> threads s = [Returned])
  ∧ ∀ tr s, execW (main 1 A) tr s → at_pc <$> threads s = [Returned] →
            stdout s = [A; "  " +:+ B; B; "  " +:+ A; "  " +:+ C; C]
            ∧ dequeued_urls tr = [A; B; C].
Proof.
  intros HAB HAC HBC HrA HrB HrC HfA HfB HfC Hpr.
  assert (EAB : String.eqb A B = false) by by apply String.eqb_neq.
  assert (EBA : String.eqb B A = false) by by apply String.eqb_neq.
  assert (EAC : String.eqb A C = false) by by apply String.eqb_neq.
  assert (ECA : String.eqb C A = false) by by apply String.eqb_neq.
  assert (EBC : String.eqb B C = false) by by apply String.eqb_neq.
  assert (ECB : String.eqb C B = false) by by apply String.eqb_neq.
  assert (Hrun : ∃ tr s, runW (replicate 64 0) (main 1 A) = Some (tr, s)
             ∧ at_pc <$> threads s = [Returned]
             ∧ stdout s = [A; "  " +:+ B; B; "  " +:+ A; "  " +:+ C; C]
             ∧ dequeued_urls tr = [A; B; C]).
  { do 2 eexists. split.
    - simpl replicate. unfold main.
      do 64 line1 ltac:(rewrite ?HrA, ?HrB, ?HrC, ?HfA, ?HfB, ?HfC, ?Hpr,
                          ?String.eqb_refl, ?EAB, ?EBA, ?EAC, ?ECA, ?EBC, ?ECB).
      apply run_nil.
    - simpl. done. }
  destruct Hrun as (trF & sF & Hrun & Hret & Hout & Hdq). split.
  - exists trF, sF. split; [by eapply run_exec | done].
  - intros tr s Hex Hret'.
    destruct (exec_single (main 1 A) _ _ eq_refl Hex) as (k & Hk & _).
    destruct (run_alone_final 0 64 _ k _ _ _ _ Hrun
                (returned_cannot_step _ Hret) Hk
                (returned_cannot_step _ Hret')) as [-> ->].
    done.
Qed.

Lemma run_exec_of sched s :
  is_Some (runW sched s) →
  execW s (trace_of (runW sched s)) (state_of (runW sched s)).
Proof.
  intros [[tr s'] H]. rewrite H. simpl. by eapply run_exec.
Qed.

(** ** Mutual exclusion and the bound of the counter *)

Lemma exec_length s0 tr s :
  execW s0 tr s → length (threads s) = length (threads s0).
Proof.
  induction 1 as [|tr s t s' _ IH Hst]; [done|].
  destruct (step_length _ _ _ Hst) as [_ ->]. done.
Qed.

(** X2. The lock of [g_url_condition] is taken by [t] exactly when [t] is
    inside one of the critical sections; so no two threads are ever inside
    critical sections together. *)
Theorem lock_owner_in_critical_section n u0 tr s t :
  execW (main n u0) tr s →
  g_url_condition_lock s = Some t
  ↔ ∃ l, threads s !! t = Some l ∧ holds_lock (at_pc l) = true.
Proof.
  intros Hex. destruct (main_invariants _ _ _ _ Hex) as (Hok & _).
  destruct (locks_ok_exec _ _ _ _ Hex) as [HL _]. split.
  - intros Hlk. rewrite Hlk in HL. simpl in HL.
    destruct (tsum_pos (at_any holds_lock) (threads s)) as (t' & l & Hl & Hw);
      [lia|].
    unfold at_any in Hw. destruct (holds_lock (at_pc l)) eqn:Hh; [|lia].
    destruct (Hok t' l Hl Hh) as [Hlk' _].
    assert (t' = t) as -> by congruence. eauto.
  - intros (l & Hl & Hh). by destruct (Hok t l Hl Hh).
Qed.

(** X3. The number of threads never changes and the counter never exceeds
    it. *)
Theorem counter_at_most_threads n u0 tr s :
  execW (main n u0) tr s →
  length (threads s) = n
  ∧ (g_num_threads_processing s ≤ Z.of_nat n)%Z.
Proof.
  intros Hex. destruct (main_invariants _ _ _ _ Hex) as (_ & _ & _ & _ & _ & HC).
  destruct (locks_ok_exec _ _ _ _ Hex) as [_ HP].
  pose proof (exec_length _ _ _ Hex) as Hlen. simpl in Hlen.
  rewrite length_replicate in Hlen. split; [done|].
  pose proof (tsum_le_length counted (threads s)). lia.
Qed.

(** ** Order of the frontier *)

Lemma omap_insert_same {A} (f : Local → option A) (ths : list Local) t l l' :
  ths !! t = Some l → f l' = f l → omap f (<[t:=l']> ths) = omap f ths.
Proof.
  revert t. induction ths as [|x ths IH]; intros [|t] H Hf; simplify_eq/=.
  - by rewrite Hf.
  - by rewrite (IH _ H Hf).
Qed.

Lemma omap_others_none {A} (f : Local → option A) (ths : list Local) t l :
  ths !! t = Some l →
  (∀ t' l', ths !! t' = Some l' → t' ≠ t → f l' = None) →
  omap f ths = option_list (f l).
Proof.
  revert t. induction ths as [|x ths IH]; intros [|t] H Hnone; simplify_eq/=.
  - assert (omap f ths = []) as ->.
    { clear IH. induction ths as [|y ths IH]; [done|]. simpl.
      rewrite (Hnone 1 y eq_refl) by done. apply IH.
      intros [|t'] l' Hl' Hne; [done|]. by apply (Hnone (S (S t')) l'). }
    by destruct (f l).
  - rewrite (Hnone 0 x eq_refl) by done.
    apply (IH t); [done|]. intros t' l' Hl' Hne.
    apply (Hnone (S t') l' Hl'). congruence.
Qed.

Lemma popped_url_wake (ths : list Local) :
  omap popped_url (wake <$> ths) = omap popped_url ths.
Proof.
  induction ths as [|x ths IH]; [done|]. csimpl. rewrite IH.
  assert (popped_url (wake x) = popped_url x) as ->; [|done].
  unfold popped_url. rewrite wake_pc, wake_page_url.
  by destruct (at_pc x).
Qed.

(** While [t] holds the lock, no other thread has a popped URL in hand. *)
Lemma others_not_popped s t l :
  threads_ok s → threads s !! t = Some l → holds_lock (at_pc l) = true →
  ∀ t' l', threads s !! t' = Some l' → t' ≠ t → popped_url l' = None.
Proof.
  intros Hok Hl Hh t' l' Hl' Hne. unfold popped_url.
  destruct (at_pc l') eqn:E; try done.
  destruct (Hok _ _ Hl Hh) as [Hlk _].
  destruct (Hok t' l' Hl') as [Hlk' _]; [by rewrite E|]. congruence.
Qed.

Lemma popped_holder s t l l' :
  threads_ok s → threads s !! t = Some l → holds_lock (at_pc l) = true →
  omap popped_url (threads s) = option_list (popped_url l)
  ∧ omap popped_url (<[t:=l']> (threads s)) = option_list (popped_url l').
Proof.
  intros Hok Hl Hh. pose proof (others_not_popped s t l Hok Hl Hh) as Hothers.
  split; [by apply (omap_others_none _ _ t)|].
  apply (omap_others_none _ _ t).
  - apply list_lookup_insert_eq. by eapply lookup_lt_Some.
  - intros t' l'' Hl'' Hne. rewrite list_lookup_insert_ne in Hl'' by done.
    by eapply Hothers.
Qed.

Lemma fifo_step tr t s s' :
  threads_ok s → stepW t s = Some s' →
  dequeued_urls tr
  = g_urls_already_processed s ++ omap popped_url (threads s) →
  dequeued_urls (tr ++ observe t s)
  = g_urls_already_processed s' ++ omap popped_url (threads s')
  ∧ ∃ more, frontier_log s' = frontier_log s ++ more.
Proof.
  intros Hok H HD.
  step_cases H l Hl Hpc; pose proof (Hok t l Hl) as Hokt;
    unfold thread_ok in Hokt; rewrite Hpc in Hokt; simpl in Hokt.
  all: unfold observe, event, frontier_log; rewrite Hl, Hpc; simpl.
  all: rewrite ?dequeued_urls_app; simpl; rewrite ?app_nil_r.
  all: try (exfalso; destruct (Hokt eq_refl) as (_ & H78 & _); by apply H78).
  all: try match goal with
         | Hq : g_urls_to_be_processed _ = _ |- _ => rewrite ?Hq
         end; simpl.
  all: first
         [ rewrite (omap_insert_same popped_url (wake <$> threads s) t
                      (wake l))
             by (first [ by rewrite list_lookup_fmap, Hl
                       | unfold popped_url; rewrite wake_pc, wake_page_url;
                         simpl; by rewrite Hpc ]);
           rewrite popped_url_wake
         | rewrite (omap_insert_same popped_url (threads s) t l)
             by (first [ done | unfold popped_url; simpl; by rewrite ?Hpc ])
         | match goal with
           | |- context [<[_:=?l']> (threads _)] =>
               destruct (popped_holder s t l l' Hok Hl
                           ltac:(by rewrite Hpc)) as [E1 E2]
           end;
           rewrite E2; rewrite E1 in HD |- *;
           unfold popped_url in *; simpl in *; rewrite ?Hpc in *; simpl in * ].
  all: split; [ by rewrite HD, <- ?app_assoc, ?app_nil_r | ].
  all: first [ by (exists []; rewrite ?app_nil_r, <- ?app_assoc)
             | by (eexists [_]; simpl; rewrite <- ?app_assoc) ].
Qed.

Lemma fifo_exec s0 tr0 tr s :
  threads_ok s0 →
  dequeued_urls tr0
  = g_urls_already_processed s0 ++ omap popped_url (threads s0) →
  execW s0 tr s →
  threads_ok s
  ∧ dequeued_urls (tr0 ++ tr)
    = g_urls_already_processed s ++ omap popped_url (threads s)
  ∧ ∃ more, frontier_log s = frontier_log s0 ++ more.
Proof.
  intros Hok0 HD0 Hex.
  induction Hex as [|tr s t s' _ (Hok & HD & more & Hlog) Hst].
  - rewrite app_nil_r. split; [done|]. split; [done|].
    exists []. by rewrite app_nil_r.
  - destruct (fifo_step _ _ _ _ Hok Hst HD) as (HD' & more' & Hlog').
    split; [by eapply threads_ok_step|]. rewrite app_assoc. split; [done|].
    exists (more ++ more'). by rewrite Hlog', Hlog, app_assoc.
Qed.

Lemma fifo_main n u0 :
  dequeued_urls []
  = g_urls_already_processed (main n u0)
    ++ omap popped_url (threads (main n u0)).
Proof.
  simpl. induction n as [|n IH]; [done|]. by csimpl.
Qed.

(** X5. The processed list, followed by the URL some thread has popped and
    not yet appended, is the list of URLs dequeued so far, in the order of
    the dequeues. *)
Theorem processed_in_dequeue_order n u0 tr s :
  execW (main n u0) tr s →
  dequeued_urls tr
  = g_urls_already_processed s ++ omap popped_url (threads s).
Proof.
  intros Hex.
  by destruct (fifo_exec _ [] _ _ (threads_ok_main n u0) (fifo_main n u0) Hex)
    as (_ & ? & _).
Qed.

(** X6. First in, first out across threads: what has been dequeued so far,
    followed by the queue, only ever grows at its end. *)
Theorem frontier_is_fifo n u0 tr s tr' s' :
  execW (main n u0) tr s → execW s tr' s' →
  ∃ more, dequeued_urls (tr ++ tr') ++ g_urls_to_be_processed s'
          = (dequeued_urls tr ++ g_urls_to_be_processed s) ++ more.
Proof.
  intros Hex Hex'.
  destruct (fifo_exec _ [] _ _ (threads_ok_main n u0) (fifo_main n u0) Hex)
    as (Hok & HD & _).
  destruct (fifo_exec _ _ _ _ Hok HD Hex') as (_ & HD' & more & Hlog).
  exists more. simpl in HD, HD'. rewrite HD, HD'.
  unfold frontier_log in Hlog. rewrite <- !app_assoc in Hlog.
  by rewrite <- !app_assoc.
Qed.

Lemma tsum_mono w w' ths :
  (∀ l, w l ≤ w' l) → tsum w ths ≤ tsum w' ths.
Proof.
  intros H. induction ths as [|x ths IH]; [done|].
  rewrite !tsum_cons. specialize (H x). lia.
Qed.

(** X7. [urlopen] is only ever attempted on a URL that was dequeued, and
    once it has been attempted the URL is in the processed list. *)
Theorem fetch_only_what_was_claimed n u0 tr s u :
  execW (main n u0) tr s → u ∈ fetched_urls tr →
  u ∈ dequeued_urls tr ∧ u ∈ g_urls_already_processed s.
Proof.
  intros (_ & _ & HU & HD & HF & _)%main_invariants Hin%occ_pos.
  specialize (HU u); specialize (HD u); specialize (HF u).
  assert (tsum (at_any_with popped u) (threads s)
          ≤ tsum (at_any_with before_fetch u) (threads s)).
  { apply tsum_mono. intros l. unfold at_any_with.
    destruct (at_pc l); simpl; lia. }
  rewrite !occ_pos. lia.
Qed.

(** ** Standard output *)

Lemma wake_has_links l : has_links (at_pc (wake l)) = has_links (at_pc l).
Proof. rewrite wake_pc. by destruct (at_pc l). Qed.

Lemma wake_locals l :
  page_url (wake l) = page_url l ∧ page_links (wake l) = page_links l
  ∧ for_rest (wake l) = for_rest l.
Proof. unfold wake. by destruct (at_pc l). Qed.

Lemma links_ok_step t s s' :
  links_ok fetch_linksW s → stepW t s = Some s' → links_ok fetch_linksW s'.
Proof.
  intros Hk H.
  step_cases H l Hl Hpc; destruct (Hk t l Hl) as [Hkt1 Hkt2];
    rewrite Hpc in Hkt1, Hkt2; simpl in Hkt1;
    intros t' l'' Hl'';
    (apply lookup_resume in Hl'' as [[-> ->]|[Hne Hl'']];
     [ simpl; rewrite ?Hpc; simpl;
       split; intros; try done; eauto
     | first [ apply lookup_notify_all in Hl'' as (lx & Hl'' & ->);
               destruct (wake_locals lx) as (-> & -> & ->);
               rewrite wake_has_links, wake_pc;
               destruct (Hk _ _ Hl'') as [? Hs]; split; [done|];
               intros Hx; apply Hs; by destruct (at_pc lx)
             | exact (Hk _ _ Hl'') ] ]).
  specialize (Hkt2 eq_refl). rewrite Heql0 in Hkt2.
  by eapply suffix_cons_l.
Qed.

Lemma links_ok_exec n u0 tr s :
  execW (main n u0) tr s → links_ok fetch_linksW s.
Proof.
  induction 1 as [|tr s t s' _ IH Hst]; [|by eapply links_ok_step].
  by intros t l ->%lookup_main.
Qed.

Lemma tsum_two w (ths : list Local) t1 l1 t2 l2 :
  t1 ≠ t2 → ths !! t1 = Some l1 → ths !! t2 = Some l2 →
  w l1 + w l2 ≤ tsum w ths.
Proof.
  revert t1 t2. induction ths as [|x ths IH]; intros [|t1] [|t2] Hne H1 H2;
    simplify_eq/=; rewrite tsum_cons.
  - pose proof (tsum_lookup_le w _ _ _ H2). lia.
  - pose proof (tsum_lookup_le w _ _ _ H1). lia.
  - assert (t1 ≠ t2) by congruence.
    specialize (IH _ _ ltac:(done) H1 H2). lia.
Qed.

(** While [t] is inside the print section nobody else is. *)
Lemma others_not_printing s t l :
  locks_ok s → threads s !! t = Some l → printing (at_pc l) = true →
  ∀ t' l', threads s !! t' = Some l' → t' ≠ t → printed_so_far l' = [].
Proof.
  intros [_ HP] Hl Hp t' l' Hl' Hne.
  pose proof (tsum_two (at_any printing) _ _ _ _ _ Hne Hl' Hl) as H2.
  unfold at_any in H2 at 1 2. rewrite Hp in H2.
  unfold printed_so_far. destruct (printing (at_pc l')) eqn:E; [lia|].
  by destruct (at_pc l').
Qed.

Lemma concat_insert_same {A} (f : Local → list A) (ths : list Local) t l l' :
  ths !! t = Some l → f l' = f l →
  concat (f <$> <[t:=l']> ths) = concat (f <$> ths).
Proof.
  revert t. induction ths as [|x ths IH]; intros [|t] H Hf; simplify_eq/=.
  - by rewrite Hf.
  - by rewrite (IH _ H Hf).
Qed.

Lemma concat_others_nil {A} (f : Local → list A) (ths : list Local) t l :
  ths !! t = Some l →
  (∀ t' l', ths !! t' = Some l' → t' ≠ t → f l' = []) →
  concat (f <$> ths) = f l.
Proof.
  revert t. induction ths as [|x ths IH]; intros [|t] H Hnone; simplify_eq/=.
  - assert (concat (f <$> ths) = []) as ->; [|by rewrite app_nil_r].
    clear IH. induction ths as [|y ths IH]; [done|]. simpl.
    rewrite (Hnone 1 y eq_refl) by done. apply IH.
    intros [|t'] l' Hl' Hne; [done|]. by apply (Hnone (S (S t')) l').
  - rewrite (Hnone 0 x eq_refl) by done. simpl.
    apply (IH t); [done|]. intros t' l' Hl' Hne.
    apply (Hnone (S t') l' Hl'). congruence.
Qed.

Lemma concat_all_nil {A} (f : Local → list A) (ths : list Local) :
  (∀ t l, ths !! t = Some l → f l = []) → concat (f <$> ths) = [].
Proof.
  induction ths as [|x ths IH]; intros H; [done|]. csimpl.
  rewrite (H 0 x eq_refl). apply IH. intros t l Hl. exact (H (S t) l Hl).
Qed.

Lemma printed_so_far_wake (ths : list Local) :
  concat (printed_so_far <$> (wake <$> ths)) = concat (printed_so_far <$> ths).
Proof.
  induction ths as [|x ths IH]; [done|]. csimpl. rewrite IH.
  assert (printed_so_far (wake x) = printed_so_far x) as ->; [|done].
  unfold printed_so_far. destruct (wake_locals x) as (-> & -> & ->).
  rewrite wake_pc. by destruct (at_pc x).
Qed.

Lemma printing_holder s t l l' :
  locks_ok s → threads s !! t = Some l → printing (at_pc l) = true →
  concat (printed_so_far <$> threads s) = printed_so_far l
  ∧ concat (printed_so_far <$> <[t:=l']> (threads s)) = printed_so_far l'.
Proof.
  intros Hlk Hl Hp.
  pose proof (others_not_printing s t l Hlk Hl Hp) as Hothers.
  split; [by apply (concat_others_nil _ _ t)|].
  apply (concat_others_nil _ _ t).
  - apply list_lookup_insert_eq. by eapply lookup_lt_Some.
  - intros t' l'' Hl'' Hne. rewrite list_lookup_insert_ne in Hl'' by done.
    by eapply Hothers.
Qed.

Lemma take_one_more (links pre rest : list string) link :
  links = pre ++ link :: rest →
  take (length links - length rest) links
  = take (length links - S (length rest)) links ++ [link].
Proof.
  intros ->. rewrite !length_app. simpl.
  replace (length pre + S (length rest) - length rest) with (S (length pre))
    by lia.
  replace (length pre + S (length rest) - S (length rest)) with (length pre)
    by lia.
  rewrite take_app_length.
  rewrite (take_app_length' (pre ++ [link]) rest (S (length pre)))
    || (rewrite cons_middle, app_assoc;
        rewrite (take_app_length' (pre ++ [link]))).
  all: try done.
  all: rewrite length_app; simpl; lia.
Qed.

Lemma block_take u (links : list string) m :
  block (u, take m links) = take (S m) (block (u, links)).
Proof. unfold block; simpl. by rewrite fmap_take. Qed.

Lemma page_block_step t s s' b :
  stepW t s = Some s' →
  page_block fetch_linksW s b → page_block fetch_linksW s' b.
Proof. intros H [? ?]. split; [done|]. by eapply visited_step. Qed.

(** The step leaves what the threads have written of their blocks. *)
Ltac same_printed Hl Hpc :=
  match type of Hl with
  | threads ?s !! ?t = Some ?l =>
      simpl;
      first
        [ rewrite (concat_insert_same printed_so_far
                     (wake <$> threads s) t (wake l))
            by (first [ by rewrite list_lookup_fmap, Hl
                      | unfold printed_so_far;
                        destruct (wake_locals l) as (-> & -> & ->);
                        rewrite wake_pc; simpl; by rewrite Hpc ]);
          by rewrite printed_so_far_wake
        | by rewrite (concat_insert_same printed_so_far (threads s) t l)
            by (first [ done
                      | unfold printed_so_far; simpl; by rewrite ?Hpc ]) ]
  end.

(** Arithmetic on the print semaphore and the number of printers. *)
Ltac semaphore Hl Hpc :=
  pose proof (tsum_lookup_le (at_any printing) _ _ _ Hl);
  unfold print_lock_intact in *; simpl; tsum_step Hl;
  unfold at_any in *; simpl in *; rewrite ?Hpc in *; simpl in *; lia.

Lemma blocks_ok_step t s s' :
  locks_ok s → urls_ok s → links_ok fetch_linksW s →
  blocks_ok fetch_linksW s → stepW t s = Some s' →
  blocks_ok fetch_linksW s'.
Proof.
  intros Hlocks Hu Hk (bs & cut & HF & Hout & Hcut) H. pose proof H as Hst.
  assert (HF' : Forall (page_block fetch_linksW s') bs).
  { eapply Forall_impl; [exact HF|]. intros b.
    exact (page_block_step t s s' b Hst). }
  clear HF.
  destruct Hcut as [[-> Hint] | (Hg & HP & b & k & Hb & Hkb & ->)].
  - (* no print has raised so far *)
    step_cases H l Hl Hpc; destruct (Hk t l Hl) as [Hk1 Hk2];
      rewrite Hpc in Hk1, Hk2; simpl in Hk1;
      pose proof (Hu t l Hl) as Hut; rewrite Hpc in Hut; simpl in Hut.
    all: try (exists bs, []; split; [exact HF'|]; split;
              [ same_printed Hl Hpc
              | left; split; [done|]; semaphore Hl Hpc ]).
    + (* line 114: the URL line *)
      destruct (printing_holder s t l
                  (set_pc L115 (set_for_rest (page_links l) l)) Hlocks Hl
                  ltac:(by rewrite Hpc)) as [E1 E2].
      exists bs, []. split; [exact HF'|]. split.
      * simpl. rewrite E2, Hout, E1.
        unfold printed_so_far; simpl. rewrite Hpc, Nat.sub_diag. simpl.
        by rewrite !app_nil_r.
      * left. split; [done|]. semaphore Hl Hpc.
    + (* line 114 raises *)
      destruct (printing_holder s t l (set_pc L124 l) Hlocks Hl
                  ltac:(by rewrite Hpc)) as [E1 E2].
      exists bs, (take 0 (block (page_url l, page_links l))).
      split; [exact HF'|]. split.
      * simpl. rewrite E2, Hout, E1.
        unfold printed_so_far; simpl. by rewrite Hpc.
      * right. split; [semaphore Hl Hpc|]. split; [semaphore Hl Hpc|].
        exists (page_url l, page_links l), 0.
        split; [split; simpl; auto|]. split; [lia | done].
    + (* line 115, loop exhausted *)
      exists bs, []. split; [exact HF'|]. split.
      * simpl.
        rewrite (concat_insert_same printed_so_far (threads s) t l);
          [done..|].
        unfold printed_so_far; simpl. rewrite Hpc.
        match goal with Hr : for_rest l = [] |- _ => rewrite Hr end.
        simpl. by rewrite Nat.sub_0_r, firstn_all.
      * left. split; [done|]. semaphore Hl Hpc.
    + (* line 116: one link line *)
      match goal with
      | Hr : for_rest l = ?link :: ?rest |- _ =>
          destruct (printing_holder s t l (set_for_rest rest l) Hlocks Hl
                      ltac:(by rewrite Hpc)) as [E1 E2];
          exists bs, []; split; [exact HF'|]; split;
          [ simpl; rewrite E2, Hout, E1;
            unfold printed_so_far; simpl; rewrite Hpc;
            destruct (Hk2 eq_refl) as [pre Hpre];
            rewrite Hr in Hpre |- *;
            rewrite (take_one_more _ pre rest link Hpre); unfold block; simpl;
            rewrite fmap_app; simpl; by rewrite <- !app_assoc, !app_nil_r
          | left; split; [done|]; semaphore Hl Hpc ]
      end.
    + (* line 116 raises *)
      destruct (printing_holder s t l (set_pc L124 l) Hlocks Hl
                  ltac:(by rewrite Hpc)) as [E1 E2].
      destruct (Hk2 eq_refl) as [pre Hpre].
      match goal with
      | Hr : for_rest l = _ :: _ |- _ => rewrite Hr in Hpre
      end.
      assert (Hlen : length (page_links l)
                     = length pre + length (for_rest l)).
      { rewrite Hpre at 1. rewrite length_app.
        match goal with
        | Hr : for_rest l = _ :: _ |- _ => by rewrite Hr
        end. }
      exists bs, (take (S (length (page_links l) - length (for_rest l)))
                    (block (page_url l, page_links l))).
      split; [exact HF'|]. split.
      * simpl. rewrite E2, Hout, E1.
        unfold printed_so_far at 1 2; simpl. rewrite Hpc.
        by rewrite block_take, !app_nil_r.
      * right. split; [semaphore Hl Hpc|]. split; [semaphore Hl Hpc|].
        eexists (page_url l, page_links l), _.
        split; [split; simpl; auto|]. split; [|done]. simpl.
        match goal with
        | Hr : for_rest l = _ :: _ |- _ => rewrite Hr in Hlen |- *
        end.
        simpl in *. lia.
    + (* line 117: the block is complete *)
      destruct (printing_holder s t l (set_pc L74 l) Hlocks Hl
                  ltac:(by rewrite Hpc)) as [E1 E2].
      exists (bs ++ [(page_url l, page_links l)]), []. split; [|split].
      * apply Forall_app. split; [exact HF'|]. constructor; [|done].
        split; simpl; auto.
      * simpl. rewrite E2, Hout, E1. unfold printed_so_far; simpl.
        rewrite Hpc, fmap_app, concat_app. simpl. by rewrite !app_nil_r.
      * left. split; [done|]. semaphore Hl Hpc.
  - (* a print has raised: nobody prints any more *)
    assert (Hb' : page_block fetch_linksW s' b) by by eapply page_block_step.
    step_cases H l Hl Hpc;
      pose proof (tsum_lookup_le (at_any printing) _ _ _ Hl) as Hle;
      unfold at_any in Hle at 1; rewrite Hpc in Hle; simpl in Hle.
    all: try (exfalso; lia).
    all: exists bs, (take k (block b)); split; [exact HF'|]; split;
      [ same_printed Hl Hpc
      | right; split; [semaphore Hl Hpc|]; split; [semaphore Hl Hpc|];
        by exists b, k ].
Qed.

Lemma blocks_ok_exec n u0 tr s :
  execW (main n u0) tr s → blocks_ok fetch_linksW s.
Proof.
  intros Hex.
  assert (urls_ok s ∧ blocks_ok fetch_linksW s) as [_ ?]; [|done].
  induction Hex as [|tr s t s' Hex [I1 I2] Hst].
  - split; [apply urls_ok_main|]. exists [], []. split; [done|]. split.
    + simpl. induction n as [|n IH]; [done|]. by csimpl.
    + left. split; [done|]. unfold print_lock_intact; simpl.
      by rewrite tsum_replicate.
  - split; [by eapply urls_ok_step|].
    eapply blocks_ok_step; eauto using locks_ok_exec, links_ok_exec.
Qed.

(** X8. Standard output is at every moment a sequence of whole page
    blocks - a processed URL on one line, then the links extracted from its
    page, each indented by two spaces, in extraction order - followed by
    the lines that the one thread inside the print section has written of
    its block, or, once a print has raised and left the semaphore taken, by
    the lines written of that block before the exception. No two blocks
    are ever interleaved. *)
Theorem output_is_whole_blocks n u0 tr s :
  execW (main n u0) tr s →
  ∃ bs, Forall (page_block fetch_linksW s) bs
        ∧ ((g_print_lock s = 1 ∧ stdout s = concat (block <$> bs))
           ∨ (g_print_lock s = 0
              ∧ ∃ t l, threads s !! t = Some l
                       ∧ printing (at_pc l) = true
                       ∧ stdout s
                         = concat (block <$> bs) ++ printed_so_far l)
           ∨ (g_print_lock s = 0
              ∧ (∀ t l, threads s !! t = Some l → printing (at_pc l) = false)
              ∧ ∃ b k, page_block fetch_linksW s b ∧ k ≤ length b.2
                       ∧ stdout s
                         = concat (block <$> bs) ++ take k (block b))).
Proof.
  intros Hex.
  destruct (blocks_ok_exec _ _ _ _ Hex) as (bs & cut & HF & Hout & Hcut).
  pose proof (locks_ok_exec _ _ _ _ Hex) as Hlocks.
  exists bs. split; [done|].
  assert (Hnone : tsum (at_any printing) (threads s) = 0 →
                  (∀ t l, threads s !! t = Some l → printing (at_pc l) = false)
                  ∧ concat (printed_so_far <$> threads s) = []).
  { intros E. pose proof (proj1 (tsum_zero _ _) E) as Hz. split.
    - intros t l Hl. specialize (Hz t l Hl). unfold at_any in Hz.
      by destruct (printing (at_pc l)).
    - apply concat_all_nil. intros t l Hl. specialize (Hz t l Hl).
      unfold at_any in Hz. unfold printed_so_far.
      destruct (at_pc l); simpl in *; done. }
  destruct Hcut as [[-> Hint] | (Hg & HP & b & k & Hb & Hkb & ->)].
  - rewrite app_nil_r in Hout. unfold print_lock_intact in Hint.
    destruct (tsum (at_any printing) (threads s)) as [|j] eqn:E.
    + left. split; [lia|]. rewrite Hout.
      destruct (Hnone eq_refl) as [_ ->]. by rewrite app_nil_r.
    + right. left. split; [lia|].
      destruct (tsum_pos (at_any printing) (threads s)) as (t & l & Hl & Hw);
        [lia|].
      unfold at_any in Hw. destruct (printing (at_pc l)) eqn:Hp; [|lia].
      exists t, l. split; [done|]. split; [done|].
      rewrite Hout. f_equal.
      by destruct (printing_holder s t l l Hlocks Hl Hp) as [-> _].
  - right. right. split; [done|]. destruct (Hnone HP) as [Hno Hnil].
    split; [done|]. exists b, k. split; [done|]. split; [done|].
    by rewrite Hout, Hnil.
Qed.

(** ** Nobody sleeps forever unless a thread has crashed or a print has
       raised *)

(** The print semaphore does not recover. *)
Lemma intact_back t s s' :
  locks_ok s → stepW t s = Some s' →
  print_lock_intact s' → print_lock_intact s.
Proof.
  intros [_ HP] H.
  step_cases H l Hl Hpc; semaphore Hl Hpc.
Qed.

(** It is lost only by a print that raises. *)
Lemma intact_step t s s' :
  print_lock_intact s → stepW t s = Some s' →
  print_lock_intact s'
  ∨ ∃ l, threads s !! t = Some l ∧ printing (at_pc l) = true
         ∧ threads s' !! t = Some (set_pc L124 l).
Proof.
  intros Hint H.
  step_cases H l Hl Hpc;
    first [ left; semaphore Hl Hpc
          | right; exists l; split; [done|]; split; [by rewrite Hpc|];
            by apply (lookup_resume_eq _ l) ].
Qed.

Lemma intact_main n u0 : print_lock_intact (main n u0).
Proof. unfold print_lock_intact; simpl. by rewrite tsum_replicate. Qed.

(** While every print succeeds the semaphore stays intact. *)
Lemma intact_while_prints_succeed n u0 tr s :
  (∀ out line, print_ok out line = true) →
  execW (main n u0) tr s → print_lock_intact s.
Proof.
  intros Hpr Hex. induction Hex as [|tr s t s' _ IH Hst]; [apply intact_main|].
  destruct (intact_step _ _ _ IH Hst) as [?|(l & Hl & Hp & Hl')]; [done|].
  exfalso. unfold step in Hst. rewrite Hl in Hst. unfold statement in Hst.
  destruct (at_pc l) eqn:Hpc; try discriminate Hp.
  - rewrite Hpr in Hst. injection Hst as <-.
    rewrite (lookup_resume_eq _ l) in Hl' by done. by injection Hl'.
  - destruct (for_rest l) as [|link rest]; [|rewrite Hpr in Hst];
      injection Hst as <-;
      rewrite (lookup_resume_eq _ l) in Hl' by done;
      injection Hl' as Hl'; try discriminate Hl'.
    by destruct l; simpl in *; subst.
  - injection Hst as <-.
    rewrite (lookup_resume_eq _ l) in Hl' by done. by injection Hl'.
Qed.

(** Until a print raises the counter is the number of threads with a
    decrement ahead. *)
Lemma intact_counter tr s :
  counts_ok tr s → print_lock_intact s →
  g_num_threads_processing s = Z.of_nat (tsum (at_any counted) (threads s)).
Proof. intros (_ & _ & _ & HC) Hint. unfold print_lock_intact in Hint. lia. Qed.

Lemma counted_witness tr s t l :
  counts_ok tr s → print_lock_intact s →
  (1 ≤ g_num_threads_processing s)%Z →
  threads s !! t = Some l → counted (at_pc l) = false →
  ∃ y ly, y ≠ t ∧ threads s !! y = Some ly ∧ counted (at_pc ly) = true.
Proof.
  intros Hcounts Hint Hge Hl Hc.
  pose proof (intact_counter _ _ Hcounts Hint) as HC.
  destruct (tsum_pos (at_any counted) (threads s)) as (y & ly & Hy & Hw);
    [lia|].
  unfold at_any in Hw. destruct (counted (at_pc ly)) eqn:E; [|lia].
  exists y, ly. split; [|done]. intros ->. congruence.
Qed.

Lemma alive_locals_step tr t s s' :
  threads_ok s → counts_ok tr s → print_lock_intact s →
  alive_ok s → stepW t s = Some s' →
  ∀ t' l', threads s' !! t' = Some l' →
  (at_pc l' = L92 →
   (1 ≤ g_num_threads_processing s')%Z ∧ g_all_done s' = false)
  ∧ (at_pc l' = L84 → g_all_done s' = true).
Proof.
  intros Hok Hcounts Hint [Hloc _] H.
  pose proof (intact_counter _ _ Hcounts Hint) as HC.
  assert (Hge : (0 ≤ g_num_threads_processing s)%Z) by lia.
  step_cases H l Hl Hpc; pose proof (Hok t l Hl) as Hokt;
    unfold thread_ok in Hokt; rewrite Hpc in Hokt; simpl in Hokt;
    try (destruct (Hokt eq_refl) as (Hlk & _); clear Hokt);
    intros t' l'' Hl'';
    (apply lookup_resume in Hl'' as [[-> ->]|[Hne Hl'']];
     [ simpl; rewrite ?Hpc; split; intros; try done;
       try (split; [lia | done])
     | try (apply lookup_notify_all in Hl'' as (lx & Hl'' & ->);
            rewrite wake_pc);
       simpl in Hl'';
       match type of Hl'' with
       | threads _ !! _ = Some ?ly =>
           destruct (Hloc _ _ Hl'') as [H92 H84];
           split; intros Hat;
           [ assert (at_pc ly = L92) as Hat'
               by (by destruct (at_pc ly));
             destruct (Hok _ _ Hl'') as [Hlk' _]; [by rewrite Hat'|];
             destruct (H92 Hat') as [? ?]; simpl;
             first [ congruence | split; [lia | done] ]
           | assert (at_pc ly = L84) as Hat'
               by (by destruct (at_pc ly));
             destruct (Hok _ _ Hl'') as [Hlk' _]; [by rewrite Hat'|];
             specialize (H84 Hat'); simpl;
             first [ congruence | done ] ]
       end ]).
Qed.

Lemma carries_on_counted p : counted p = true → carries_on p = true.
Proof. by destruct p. Qed.

Lemma alive_sleepers_step tr t s s' :
  threads_ok s → counts_ok tr s → print_lock_intact s →
  alive_ok s → stepW t s = Some s' →
  ∀ w lw, threads s' !! w = Some lw → at_pc lw = L92_blocked →
  (∃ t l, threads s' !! t = Some l ∧ carries_on (at_pc l) = true)
  ∧ (g_all_done s' = true → ∃ t l, threads s' !! t = Some l ∧ at_pc l = L88).
Proof.
  intros Hok Hcounts Hint [Hloc Hblk] H.
  step_cases H l Hl Hpc; pose proof (Hok t l Hl) as Hokt;
    unfold thread_ok in Hokt; rewrite Hpc in Hokt; simpl in Hokt;
    try (destruct (Hokt eq_refl) as (Hlk & _); clear Hokt);
    destruct (Hloc t l Hl) as [Ht92 Ht84]; rewrite Hpc in Ht92, Ht84;
    intros w lw Hlw Hb;
    (apply lookup_resume in Hlw as [[-> ->]|[Hne Hlw]];
     [ simpl in Hb; rewrite ?Hpc in Hb; try discriminate Hb
     | first
         [ apply lookup_notify_all in Hlw as (lx & Hlw & ->);
           by apply wake_not_blocked in Hb
         | simpl in Hlw;
           destruct (Hblk w lw Hlw Hb) as [(x & lx & Hx & Hcx) HK] ] ]).
  all: split.
  (* somebody carries on *)
  all: try match goal with
         | |- ∃ _ _, _ ∧ carries_on _ = true =>
             first
               [ (* the witness is another thread *)
                 assert (x ≠ t) as Hxt
                   by (intros ->; rewrite Hl in Hx; injection Hx as <-;
                       rewrite Hpc in Hcx; discriminate Hcx);
                 exists x, lx; split;
                 [ rewrite lookup_resume_ne by done; exact Hx | done ]
               | (* the stepping thread carries on *)
                 exists t; eexists; split;
                 [ apply (lookup_resume_eq _ l); exact Hl
                 | simpl; rewrite ?Hpc; reflexivity ]
               | (* another thread, if the witness was the stepping one *)
                 destruct (decide (x = t)) as [->|Hxt];
                 [ | exists x, lx; split;
                     [ rewrite lookup_resume_ne by done; exact Hx | done ] ] ]
         end.
  (* the done flag *)
  all: try match goal with
         | |- g_all_done _ = true → _ =>
             intros Hd; simpl in Hd;
             first
               [ exists t; eexists; split;
                 [ apply (lookup_resume_eq _ l); exact Hl | reflexivity ]
               | congruence
               | assert (∃ y ly, threads s !! y = Some ly ∧ at_pc ly = L88)
                   as (y & ly & Hy & Hpy)
                   by (first [ exact (HK Hd) | exact (HK eq_refl) ]);
                 assert (y ≠ t) as Hyt
                   by (intros ->; rewrite Hl in Hy; injection Hy as <-;
                       congruence);
                 exists y, ly; split;
                 [ rewrite lookup_resume_ne by done; exact Hy | done ]
               | destruct (Ht92 eq_refl); congruence ]
         end.
  - (* line 84 is reached with the flag set: nobody can be asleep *)
    exfalso. destruct (HK eq_refl) as (y & ly & Hy & Hpy).
    destruct (Hok y ly Hy) as [Hlky _]; [by rewrite Hpy|].
    assert (y = t) as -> by congruence.
    rewrite Hl in Hy. injection Hy as <-. congruence.
  - (* the thread falling asleep has seen the counter positive *)
    destruct (Ht92 eq_refl) as [Hge _].
    destruct (counted_witness _ _ _ _ Hcounts Hint Hge Hl
                ltac:(by rewrite Hpc))
      as (y & ly & Hyt & Hy & Hcy).
    exists y, ly. split; [|by apply carries_on_counted].
    rewrite lookup_resume_ne by done. exact Hy.
  - destruct (Ht92 eq_refl) as [Hge _].
    destruct (counted_witness _ _ _ _ Hcounts Hint Hge Hl
                ltac:(by rewrite Hpc))
      as (y & ly & Hyt & Hy & Hcy).
    exists y, ly. split; [|by apply carries_on_counted].
    rewrite lookup_resume_ne by done. exact Hy.
Qed.

Lemma alive_ok_main n u0 : alive_ok (main n u0).
Proof. split; [by intros t l ->%lookup_main | by intros t l ->%lookup_main]. Qed.

Lemma alive_ok_exec n u0 tr s :
  execW (main n u0) tr s → print_lock_intact s → alive_ok s.
Proof.
  intros Hex.
  induction Hex as [|tr s t s' Hex IH Hst]; [intros _; apply alive_ok_main|].
  intros Hint'.
  destruct (main_invariants _ _ _ _ Hex) as (I1 & _ & I3).
  pose proof (intact_back _ _ _ (locks_ok_exec _ _ _ _ Hex) Hst Hint') as Hint.
  specialize (IH Hint).
  split; [by eapply alive_locals_step | by eapply alive_sleepers_step].
Qed.

(** A thread at line 84 has seen the done flag set. *)
Lemma seen_done_step t s s' :
  threads_ok s →
  (∀ t l, threads s !! t = Some l → at_pc l = L84 → g_all_done s = true) →
  stepW t s = Some s' →
  ∀ t' l', threads s' !! t' = Some l' → at_pc l' = L84 →
           g_all_done s' = true.
Proof.
  intros Hok Hd H.
  step_cases H l Hl Hpc; pose proof (Hok t l Hl) as Hokt;
    unfold thread_ok in Hokt; rewrite Hpc in Hokt; simpl in Hokt;
    intros t' l'' Hl'' H84;
    (apply lookup_resume in Hl'' as [[-> ->]|[Hne Hl'']];
     [ simpl in H84; rewrite ?Hpc in H84; try discriminate H84; simpl; done
     | first [ apply lookup_notify_all in Hl'' as (lx & Hl'' & ->);
               rewrite wake_pc in H84; simpl;
               apply (Hd _ _ Hl''); by destruct (at_pc lx)
             | simpl; try done;
               first [ exact (Hd _ _ Hl'' H84)
                     | discriminate (Hd _ _ Hl'' H84) ] ] ]).
Qed.

Lemma seen_done_exec n u0 tr s :
  execW (main n u0) tr s →
  ∀ t l, threads s !! t = Some l → at_pc l = L84 → g_all_done s = true.
Proof.
  intros Hex.
  assert (threads_ok s
          ∧ ∀ t l, threads s !! t = Some l → at_pc l = L84 →
                   g_all_done s = true) as [_ ?]; [|done].
  induction Hex as [|tr s t' s' _ [I1 I2] Hst].
  - split; [apply threads_ok_main|]. by intros t l ->%lookup_main.
  - split; [by eapply threads_ok_step | by eapply seen_done_step].
Qed.


Lemma crash_step t s s' :
  threads_ok s →
  (∀ t l, threads s !! t = Some l → at_pc l = Crashed →
          Request_ok (page_url l) = false) →
  stepW t s = Some s' →
  ∀ t' l', threads s' !! t' = Some l' → at_pc l' = Crashed →
           Request_ok (page_url l') = false.
Proof.
  intros Hok Hc H.
  step_cases H l Hl Hpc; pose proof (Hok t l Hl) as Hokt;
    unfold thread_ok in Hokt; rewrite Hpc in Hokt; simpl in Hokt;
    intros t' l'' Hl'' Hcr;
    (apply lookup_resume in Hl'' as [[-> ->]|[Hne Hl'']];
     [ simpl in Hcr; rewrite ?Hpc in Hcr; try discriminate Hcr
     | first [ apply lookup_notify_all in Hl'' as (lx & Hl'' & ->);
               rewrite wake_pc in Hcr; rewrite wake_page_url;
               apply (Hc _ _ Hl''); by destruct (at_pc lx)
             | exact (Hc _ _ Hl'' Hcr) ] ]).
  - exfalso. destruct (Hokt eq_refl) as (_ & H78 & _). by apply H78.
  - done.
Qed.

(** X9. A thread crashes only at line 95, on a URL for which
    [urllib.request.Request] raises; [urlopen] is never attempted on that
    URL. *)
Theorem crash_only_on_rejected_url n u0 tr s t l :
  execW (main n u0) tr s → threads s !! t = Some l → at_pc l = Crashed →
  Request_ok (page_url l) = false ∧ page_url l ∉ fetched_urls tr.
Proof.
  intros Hex Hl Hcr. split.
  - revert t l Hl Hcr.
    assert (threads_ok s
            ∧ ∀ t l, threads s !! t = Some l → at_pc l = Crashed →
                     Request_ok (page_url l) = false) as [_ ?]; [|done].
    induction Hex as [|tr s t' s' _ [I1 I2] Hst].
    + split; [apply threads_ok_main|]. by intros t l ->%lookup_main.
    + split; [by eapply threads_ok_step | by eapply crash_step].
  - destruct (main_invariants _ _ _ _ Hex) as (_ & _ & HU & HD & HF & _).
    specialize (HU (page_url l)); specialize (HD (page_url l));
      specialize (HF (page_url l)).
    pose proof (tsum_lookup_le (at_any_with before_fetch (page_url l))
                  _ _ _ Hl) as Hle.
    unfold at_any_with in Hle at 1. rewrite Hcr, String.eqb_refl in Hle.
    simpl in Hle. rewrite occ_pos. lia.
Qed.

Lemma holder_can_step s t l :
  threads s !! t = Some l → holds_lock (at_pc l) = true →
  is_Some (stepW t s).
Proof.
  intros Hl Hh. unfold step, statement. rewrite Hl.
  destruct (at_pc l); try done; eauto.
  - destruct (0 <? _); [eauto|]. destruct (g_all_done s); [eauto|].
    destruct (_ =? _)%Z; eauto.
  - destruct (g_urls_to_be_processed s); eauto.
  - destruct (for_rest l); [eauto|]. destruct (_ && _); eauto.
  - destruct (_ <? _); eauto.
Qed.

Lemma printer_can_step s t l :
  threads s !! t = Some l → printing (at_pc l) = true →
  is_Some (stepW t s).
Proof.
  intros Hl Hh. unfold step, statement. rewrite Hl.
  destruct (at_pc l); try done; eauto.
  - destruct (print_ok _ _); eauto.
  - destruct (for_rest l); [eauto|]. destruct (print_ok _ _); eauto.
Qed.

Lemma awake_can_step s t l :
  threads s !! t = Some l → awake (at_pc l) = true →
  g_url_condition_lock s = None → g_print_lock s ≠ 0 →
  is_Some (stepW t s).
Proof.
  intros Hl Ha Hlk Hp.
  destruct (holds_lock (at_pc l)) eqn:Hh; [by eapply holder_can_step|].
  destruct (printing (at_pc l)) eqn:Hpr; [by eapply printer_can_step|].
  unfold step, statement. rewrite Hl, ?Hlk.
  destruct (at_pc l); try done; eauto.
  - destruct (Request_ok _); eauto.
  - destruct (fetch_links _ _ _ _); eauto.
  - destruct (g_print_lock s); [done | eauto].
Qed.

(** X10. Statements taken as atomic, the pool never deadlocks short of a
    crash or a print that has raised: in a state where no thread can
    execute a statement, no thread has crashed and the print semaphore is
    free, every thread has returned. *)
Theorem stuck_means_all_returned n u0 tr s :
  execW (main n u0) tr s →
  (∀ t, stepW t s = None) →
  (∀ t l, threads s !! t = Some l → at_pc l ≠ Crashed) →
  g_print_lock s = 1 →
  ∀ t l, threads s !! t = Some l → at_pc l = Returned.
Proof.
  intros Hex Hstuck Hnocrash Hfree.
  destruct (main_invariants _ _ _ _ Hex) as (Hok & _ & _).
  destruct (locks_ok_exec _ _ _ _ Hex) as [HL HP].
  assert (Hint : print_lock_intact s) by (unfold print_lock_intact; lia).
  destruct (alive_ok_exec _ _ _ _ Hex Hint) as [_ Hblk].
  assert (Hno : ∀ t, ¬ is_Some (stepW t s)).
  { intros t [x Hx]. by rewrite Hstuck in Hx. }
  assert (Hlk : g_url_condition_lock s = None).
  { destruct (g_url_condition_lock s) eqn:E; [|done]. exfalso. simpl in HL.
    destruct (tsum_pos (at_any holds_lock) (threads s)) as (h & lh & Hh & Hw);
      [lia|].
    unfold at_any in Hw. destruct (holds_lock (at_pc lh)) eqn:Hhl; [|lia].
    by apply (Hno h), (holder_can_step s h lh). }
  assert (Hsem : g_print_lock s ≠ 0) by lia.
  assert (Hsleep : ∀ t l, threads s !! t = Some l → awake (at_pc l) = false).
  { intros t l Hl. destruct (awake (at_pc l)) eqn:E; [|done]. exfalso.
    by apply (Hno t), (awake_can_step s t l). }
  intros t l Hl. pose proof (Hsleep t l Hl) as Hs.
  pose proof (Hnocrash t l Hl) as Hc.
  destruct (at_pc l) eqn:Hpc; try done.
  exfalso. destruct (Hblk t l Hl Hpc) as [(x & lx & Hx & Hcx) _].
  pose proof (Hsleep x lx Hx) as Hsx. pose proof (Hnocrash x lx Hx) as Hcrx.
  by destruct (at_pc lx).
Qed.

(** X11. A starting URL that [urllib.request.Request] rejects can hang a
    pool of two: the thread that dequeued it dies at line 95 with the
    counter at 1, the other one goes to sleep on the condition variable,
    and no statement can be executed any more. Nothing is fetched or
    printed. *)
Theorem rejected_start_url_can_hang u0 :
  Request_ok u0 = false →
  ∃ tr s, execW (main 2 u0) tr s
          ∧ at_pc <$> threads s = [Crashed; L92_blocked]
          ∧ g_num_threads_processing s = 1%Z
          ∧ fetched_urls tr = [] ∧ stdout s = []
          ∧ ∀ t, stepW t s = None.
Proof.
  intros Hrej.
  assert (∃ tr s, runW [0; 0; 0; 0; 0; 0; 0; 1; 1; 1] (main 2 u0)
                  = Some (tr, s)
                  ∧ at_pc <$> threads s = [Crashed; L92_blocked]
                  ∧ g_num_threads_processing s = 1%Z
                  ∧ fetched_urls tr = [] ∧ stdout s = []
                  ∧ ∀ t, stepW t s = None)
    as (tr & s & Hrun & H).
  { do 2 eexists. split.
    - unfold main. simpl replicate. do 10 line1 ltac:(rewrite ?Hrej).
      apply run_nil.
    - split_and!; try done. by intros [|[|t]]. }
  exists tr, s. split; [by eapply run_exec | done].
Qed.

(** ** Where queued URLs come from *)

Lemma discovered_mono u0 tr tr' u :
  discovered fetch_linksW u0 tr u → discovered fetch_linksW u0 (tr ++ tr') u.
Proof.
  intros [->|(p & links & Hp & Hf & Hu)]; [by left|]. right.
  exists p, links. rewrite fetched_urls_app, elem_of_app. auto.
Qed.

Lemma provenance_step u0 tr t s s' :
  threads_ok s → links_ok fetch_linksW s →
  provenance_ok fetch_linksW u0 tr s → stepW t s = Some s' →
  provenance_ok fetch_linksW u0 (tr ++ observe t s) s'.
Proof.
  intros Hok Hk (Hp & Hv & Hth) H.
  assert (Hfetch : ∀ l, threads s !! t = Some l → at_pc l = L97 →
                        page_url l ∈ fetched_urls (tr ++ observe t s)).
  { intros l Hl Hpc. unfold observe, event. rewrite Hl, Hpc.
    rewrite fetched_urls_app, elem_of_app. right. simpl. by left. }
  assert (Hp' : ∀ u, u ∈ g_urls_to_be_processed s →
                     discovered fetch_linksW u0 (tr ++ observe t s) u)
    by (intros; by apply discovered_mono, Hp).
  assert (Hv' : ∀ u, u ∈ g_urls_already_processed s →
                     discovered fetch_linksW u0 (tr ++ observe t s) u)
    by (intros; by apply discovered_mono, Hv).
  assert (Hth' : ∀ t' l, threads s !! t' = Some l →
      (at_pc l = L79 →
       discovered fetch_linksW u0 (tr ++ observe t s) (page_url l))
      ∧ (publishing_links (at_pc l) = true →
         page_url l ∈ fetched_urls (tr ++ observe t s))
      ∧ (at_pc l = L103 → for_rest l `suffix_of` page_links l)).
  { intros t' l' Hl'. destruct (Hth t' l' Hl') as (H1 & H2 & H3).
    split; [intros; by apply discovered_mono, H1|]. split; [|done].
    intros Hx. rewrite fetched_urls_app, elem_of_app. left. auto. }
  clear Hp Hv Hth. rename Hp' into Hp, Hv' into Hv, Hth' into Hth.
  remember (tr ++ observe t s) as tr' eqn:Etr. clear Etr.
  step_cases H l Hl Hpc; destruct (Hth t l Hl) as (Ht79 & Htf & Ht103);
    rewrite Hpc in Ht79, Htf, Ht103; simpl in Htf;
    destruct (Hk t l Hl) as [Hkl _]; rewrite Hpc in Hkl; simpl in Hkl.
  all: split; [|split]; simpl.
  all: try assumption.
  (* the threads *)
  all: try match goal with
         | |- ∀ _ _, _ !! _ = Some _ → _ =>
             intros t' l'' Hl'';
             apply list_lookup_insert_Some in Hl''
               as [(<- & <- & _)|[Hne Hl'']];
             [ simpl; rewrite ?Hpc; split_and!; intros; try done; eauto
             | first [ rewrite list_lookup_fmap in Hl'';
                       destruct (threads s !! t') as [lx|] eqn:Hlx;
                       [|done]; injection Hl'' as <-;
                       destruct (wake_locals lx) as (-> & -> & ->);
                       rewrite wake_pc;
                       destruct (Hth _ _ Hlx) as (? & ? & ?);
                       split_and!; intros Hat;
                       destruct (at_pc lx); try done; auto
                     | exact (Hth _ _ Hl'') ] ]
         end.
  - intros u Hu. rewrite Heql0 in Hu. by apply Hp.
  - intros u Hu. apply Hp. by right.
  - apply Hp. by left.
  - intros u [Hu | ->%list_elem_of_singleton]%elem_of_app; [by apply Hv|].
    by apply Ht79.
  - intros u [Hu | ->%list_elem_of_singleton]%elem_of_app; [by apply Hp|].
    right. exists (page_url l), (page_links l).
    split; [by apply Htf|]. split; [by apply Hkl|].
    destruct (Ht103 eq_refl) as [pre Hpre].
    match goal with Hr : for_rest l = _ :: _ |- _ => rewrite Hr in Hpre end.
    rewrite Hpre, elem_of_app. right. by left.
  - specialize (Ht103 eq_refl).
    match goal with Hr : for_rest l = _ :: _ |- _ => rewrite Hr in Ht103 end.
    by eapply suffix_cons_l.
  - specialize (Ht103 eq_refl).
    match goal with Hr : for_rest l = _ :: _ |- _ => rewrite Hr in Ht103 end.
    by eapply suffix_cons_l.
Qed.

Lemma provenance_main n u0 : provenance_ok fetch_linksW u0 [] (main n u0).
Proof.
  split; [|split]; simpl.
  - intros u ->%list_elem_of_singleton. by left.
  - by intros u ?%elem_of_nil.
  - intros t l [-> _]%lookup_replicate. by split_and!.
Qed.

(** X12. The pool never invents a URL: whatever is in the queue or in the
    processed list is the starting URL or one of the links that
    [get_links_from_page_text] returned for a page whose fetch was
    attempted and succeeded. *)
Theorem queued_urls_were_discovered n u0 tr s u :
  execW (main n u0) tr s →
  u ∈ g_urls_to_be_processed s ∨ u ∈ g_urls_already_processed s →
  u = u0
  ∨ ∃ p links, p ∈ fetched_urls tr ∧ fetch_linksW p = Some links ∧ u ∈ links.
Proof.
  intros Hex Hin.
  assert (threads_ok s ∧ provenance_ok fetch_linksW u0 tr s)
    as [_ (Hp & Hv & _)].
  { clear Hin. induction Hex as [|tr s t s' Hex [I1 I2] Hst].
    - split; [apply threads_ok_main | apply provenance_main].
    - split; [by eapply threads_ok_step|].
      eapply provenance_step; eauto using links_ok_exec. }
  destruct Hin as [Hin | Hin]; [by apply Hp | by apply Hv].
Qed.


(** ** Clean termination *)

Lemma returned_only_from_empty_queue t s s' l' :
  threads_ok s →
  (∀ t l, threads s !! t = Some l → at_pc l = L84 → g_all_done s = true) →
  stepW t s = Some s' →
  threads s' !! t = Some l' → at_pc l' = Returned →
  g_urls_to_be_processed s' = [] ∧ g_all_done s' = true.
Proof.
  intros Hok Hloc H.
  step_cases H l Hl Hpc; pose proof (Hok t l Hl) as Hokt;
    unfold thread_ok in Hokt; rewrite Hpc in Hokt; simpl in Hokt;
    pose proof (Hloc t l Hl) as H84; rewrite Hpc in H84;
    intros Hl' Hret;
    (apply lookup_resume in Hl' as [[_ ->]|[Hne _]]; [|done]);
    simpl in Hret; rewrite ?Hpc in Hret; try discriminate Hret;
    destruct (Hokt eq_refl) as (_ & _ & Hqe & Hdn); simpl; auto.
Qed.

(** X13. No work is left behind: once every thread of a non-empty pool has
    returned, the queue is empty, the done flag is set, the lock is free
    and every URL that was dequeued is in the processed list, in dequeue
    order. Statements taken as atomic, the print semaphore is free and the
    counter is 0, unless a print has raised: then the semaphore is still
    taken and the counter is -1. *)
Theorem all_returned_means_done n u0 tr s :
  execW (main n u0) tr s → 0 < n →
  (∀ t l, threads s !! t = Some l → at_pc l = Returned) →
  g_urls_to_be_processed s = [] ∧ g_all_done s = true
  ∧ g_url_condition_lock s = None
  ∧ g_urls_already_processed s = dequeued_urls tr
  ∧ ((g_print_lock s = 1 ∧ g_num_threads_processing s = 0%Z)
     ∨ (g_print_lock s = 0 ∧ g_num_threads_processing s = (-1)%Z)).
Proof.
  intros Hex Hn Hall.
  assert (Hq : g_urls_to_be_processed s = [] ∧ g_all_done s = true).
  { pose proof Hex as Hex0.
    destruct Hex0 as [|tr s t s' Hex0 Hst].
    - exfalso.
      assert (threads (main n u0) !! 0 = Some thread0) as H0.
      { simpl. apply lookup_replicate. auto. }
      by specialize (Hall 0 thread0 H0).
    - destruct (step_length _ _ _ Hst) as [Hlt Hlen].
      destruct (lookup_lt_is_Some_2 (threads s') t) as [l' Hl']; [lia|].
      destruct (main_invariants _ _ _ _ Hex0) as (Hok & _).
      eapply returned_only_from_empty_queue;
        eauto using seen_done_exec. }
  destruct Hq as [Hq Hd]. split; [done|]. split; [done|].
  destruct (locks_ok_exec _ _ _ _ Hex) as [HL HP].
  destruct (main_invariants _ _ _ _ Hex) as (_ & _ & _ & _ & _ & HC).
  assert (Hz : ∀ ps, ps Returned = false →
                     tsum (at_any ps) (threads s) = 0).
  { intros ps Hps. apply tsum_zero. intros t l Hl. unfold at_any.
    by rewrite (Hall t l Hl), Hps. }
  rewrite (Hz holds_lock eq_refl) in HL.
  rewrite (Hz printing eq_refl) in HP, HC.
  rewrite (Hz counted eq_refl) in HC.
  split; [by destruct (g_url_condition_lock s)|]. split; [|lia].
  destruct (fifo_exec _ [] _ _ (threads_ok_main n u0) (fifo_main n u0) Hex)
    as (_ & HD & _).
  simpl in HD. rewrite HD.
  assert (omap popped_url (threads s) = []) as ->; [|by rewrite app_nil_r].
  clear -Hall. induction (threads s) as [|x ths IH]; [done|]. csimpl.
  unfold popped_url at 1. rewrite (Hall 0 x eq_refl). simpl.
  apply IH. intros t l Hl. exact (Hall (S t) l Hl).
Qed.

(** X14. A print that raises hangs a pool of one and leaves work behind.
    On a site where [A] links to [B] and [B] links to [A] and [C]:
    [print(A)] succeeds and the print of the link line raises inside the
    [try] block; the handler decrements the counter a second time and does
    not release the print semaphore. The thread goes on to fetch and
    publish [B] and then waits for the semaphore for ever: standard output
    holds the cut block of [A], [B] is never reported, [C] stays in the
    queue, and the counter is -1. *)
Theorem raising_print_can_hang A B C :
  A ≠ B → A ≠ C → B ≠ C →
  Request_ok A = true → Request_ok B = true →
  fetch_linksW A = Some [B] → fetch_linksW B = Some [A; C] →
  print_ok [] A = true → print_ok [A] ("  " +:+ B) = false →
  ∃ tr s, execW (main 1 A) tr s
          ∧ at_pc <$> threads s = [L113]
          ∧ g_print_lock s = 0
          ∧ g_num_threads_processing s = (-1)%Z
          ∧ stdout s = [A]
          ∧ fetched_urls tr = [A; B]
          ∧ g_urls_to_be_processed s = [C]
          ∧ ∀ t, stepW t s = None.
Proof.
  intros HAB HAC HBC HrA HrB HfA HfB HpA HpB.
  assert (EAB : String.eqb A B = false) by by apply String.eqb_neq.
  assert (EBA : String.eqb B A = false) by by apply String.eqb_neq.
  assert (EAC : String.eqb A C = false) by by apply String.eqb_neq.
  assert (ECA : String.eqb C A = false) by by apply String.eqb_neq.
  assert (EBC : String.eqb B C = false) by by apply String.eqb_neq.
  assert (ECB : String.eqb C B = false) by by apply String.eqb_neq.
  pose proof HpB as HpB'. simpl in HpB'.
  assert (∃ tr s, runW (replicate 37 0) (main 1 A) = Some (tr, s)
                  ∧ at_pc <$> threads s = [L113]
                  ∧ g_print_lock s = 0
                  ∧ g_num_threads_processing s = (-1)%Z
                  ∧ stdout s = [A]
                  ∧ fetched_urls tr = [A; B]
                  ∧ g_urls_to_be_processed s = [C]
                  ∧ ∀ t, stepW t s = None)
    as (tr & s & Hrun & H).
  { do 2 eexists. split.
    - unfold main. simpl replicate.
      do 37 line1 ltac:(rewrite ?HrA, ?HrB, ?HfA, ?HfB, ?HpA, ?HpB, ?HpB',
                          ?String.eqb_refl, ?EAB, ?EBA, ?EAC, ?ECA, ?EBC, ?ECB).
      apply run_nil.
    - split_and!; try done. by intros [|t]. }
  exists tr, s. split; [by eapply run_exec | done].
Qed.

End Pool.

(** ** The extractor on absolute and on root-relative hrefs *)

(** C6 (the code departs from it). An href that already is an absolute
    http or https URL is not passed through: the test of line 52 compares
    a three-character slice with "http", so the anchor is skipped and the
    function returns the empty list (or raises, where [urlparse] raises on
    the page URL). *)
Theorem absolute_href_is_dropped urlparse page_url page_text rest :
  get_links_from_page_text
    urlparse (λ _, Some [a_href ("http" +:+ rest)]) page_url page_text
  = match urlparse page_url with
    | Some _ => Some []
    | None => None
    end.
Proof.
  unfold get_links_from_page_text.
  destruct (urlparse page_url) as [parsed_url|]; [|done].
  simpl. unfold link_url_of. rewrite Tag_get_a_href.
  change (String.length ("http" +:+ rest) =? 0) with false.
  change (first_is_slash ("http" +:+ rest)) with false.
  cbv iota. by rewrite slice_0_3_is_not_http.
Qed.



(** ** The pool on the sample sites *)

Lemma site_run_exec sched s :
  is_Some (site_run sched s) →
  site_exec s (trace_of (site_run sched s)) (state_of (site_run sched s)).
Proof. apply run_exec_of. Qed.

Lemma fan_run_exec sched s :
  is_Some (fan_run sched s) →
  fan_exec s (trace_of (fan_run sched s)) (state_of (fan_run sched s)).
Proof. apply run_exec_of. Qed.

Lemma short_run_exec sched s :
  is_Some (short_run sched s) →
  short_exec s (trace_of (short_run sched s)) (state_of (short_run sched s)).
Proof. apply run_exec_of. Qed.

Ltac computed := vm_compute; first [ reflexivity | by eexists ].



Lemma no_duplicate_claims_witness :
  dequeued_urls (trace_of (site_run (replicate 64 0) (main 1 "http://h/a")))
  = ["http://h/a"; "http://h/b"; "http://h/c"]
  ∧ NoDup (dequeued_urls
             (trace_of (site_run (replicate 64 0) (main 1 "http://h/a"))))
  ∧ NoDup (fetched_urls
             (trace_of (site_run (replicate 64 0) (main 1 "http://h/a")))).
Proof.
  split; [reflexivity|].
  exact (no_duplicate_claims sample_urlparse site_findAll_a has_scheme
           site_read stdout_open 1 "http://h/a" _ _
           (site_run_exec (replicate 64 0) (main 1 "http://h/a")
              ltac:(computed))).
Defined.

Lemma request_failure_ends_worker_witness :
  ∃ s', site_step 0 (state_of (site_run (replicate 6 0) (main 1 "example.com")))
        = Some s'
        ∧ at_pc <$> threads s' !! 0 = Some Crashed
        ∧ g_num_threads_processing s' = 1%Z
        ∧ site_step 0 s' = None.
Proof.
  destruct (request_failure_ends_worker sample_urlparse site_findAll_a
              has_scheme site_read stdout_open 1 "example.com" _ _ 0
              {| at_pc := L95; page_url := "example.com"; page_links := [];
                 for_rest := [] |}
              (site_run_exec (replicate 6 0) (main 1 "example.com")
                 ltac:(computed))
              eq_refl eq_refl eq_refl)
    as (s' & H1 & H2 & _ & _ & _ & H3 & H4).
  exists s'. split; [exact H1|]. rewrite H2, H3.
  split; [reflexivity|]. split; [reflexivity|].
  by destruct (H4 [] s' (exec_refl _ _ _ _ _ _)) as (_ & ? & _).
Defined.

Lemma handled_failure_is_contained_witness :
  ∃ s', site_run [0; 0; 0; 0]
          (state_of (site_run (replicate 7 0) (main 1 "http://h/zzz")))
        = Some ([EvFetch 0 "http://h/zzz"], s')
        ∧ at_pc <$> threads s' !! 0 = Some L74
        ∧ stdout s' = []
        ∧ g_num_threads_processing s' = 0%Z
        ∧ g_url_condition_lock s' = None
        ∧ "http://h/zzz" ∈ g_urls_already_processed s'.
Proof.
  destruct (handled_failure_is_contained sample_urlparse site_findAll_a
              has_scheme site_read stdout_open 1 "http://h/zzz" _ _ 0
              {| at_pc := L97; page_url := "http://h/zzz"; page_links := [];
                 for_rest := [] |}
              (site_run_exec (replicate 7 0) (main 1 "http://h/zzz")
                 ltac:(computed))
              eq_refl eq_refl eq_refl eq_refl)
    as (s' & H1 & H2 & _ & _ & H3 & Hc & Hlk & _ & H4 & _).
  exists s'. split; [exact H1|]. rewrite H2, H3, Hc, Hlk. auto.
Defined.



Lemma chain_single_worker_witness :
  ∃ tr s, site_exec (main 1 "http://h/a") tr s
          ∧ at_pc <$> threads s = [Returned].
Proof.
  apply (chain_single_worker sample_urlparse site_findAll_a has_scheme
           site_read stdout_open "http://h/a" "http://h/b" "http://h/c");
    first [ discriminate | reflexivity | by intros ].
Defined.

(** C3 (the code departs from it). With two threads on the three-page
    site: after thread 0 has popped the starting URL and released the lock
    (five statements), the lock is free and thread 0's next statement,
    line 81, writes the counter. If thread 1 runs in that window it finds
    the queue empty and the counter 0, decides termination and returns,
    while thread 0 goes on to fetch the page and to queue [/b] after the
    done flag has been set. *)
Theorem increment_outside_lock :
  site_exec (main 2 "http://h/a")
    (trace_of (site_run [0; 0; 0; 0; 0] (main 2 "http://h/a")))
    (state_of (site_run [0; 0; 0; 0; 0] (main 2 "http://h/a")))
  ∧ at_pc <$> threads
                (state_of (site_run [0; 0; 0; 0; 0] (main 2 "http://h/a")))
    = [L81; L74]
  ∧ g_url_condition_lock
      (state_of (site_run [0; 0; 0; 0; 0] (main 2 "http://h/a"))) = None
  ∧ g_num_threads_processing
      (state_of (site_run [0; 0; 0; 0; 0] (main 2 "http://h/a"))) = 0%Z
  ∧ g_num_threads_processing
      <$> site_step 0
            (state_of (site_run [0; 0; 0; 0; 0] (main 2 "http://h/a")))
    = Some 1%Z
  ∧ site_exec (main 2 "http://h/a")
      (trace_of (site_run [0; 0; 0; 0; 0; 1; 1; 1; 1; 1; 0; 0; 0; 0; 0]
                   (main 2 "http://h/a")))
      (state_of (site_run [0; 0; 0; 0; 0; 1; 1; 1; 1; 1; 0; 0; 0; 0; 0]
                   (main 2 "http://h/a")))
  ∧ at_pc <$> threads
                (state_of
                   (site_run [0; 0; 0; 0; 0; 1; 1; 1; 1; 1; 0; 0; 0; 0; 0]
                      (main 2 "http://h/a")))
    = [L103; Returned]
  ∧ g_all_done
      (state_of (site_run [0; 0; 0; 0; 0; 1; 1; 1; 1; 1; 0; 0; 0; 0; 0]
                   (main 2 "http://h/a"))) = true
  ∧ g_urls_to_be_processed
      (state_of (site_run [0; 0; 0; 0; 0; 1; 1; 1; 1; 1; 0; 0; 0; 0; 0]
                   (main 2 "http://h/a"))) = ["http://h/b"].
Proof.
  split; [apply site_run_exec; computed|].
  do 4 (split; [by vm_compute|]).
  split; [apply site_run_exec; computed|].
  by vm_compute.
Qed.

(** Line 108 is reached whenever the queue is non-empty after the
    insertions. On the fan site with one worker the publish for [/b] takes
    the lock while [/c] is queued, inserts nothing and reaches line 108;
    nobody is asleep and the threads are the same after [notify_all]. *)
Lemma publish_notifies_on_nonempty_queue :
  fan_exec (main 1 "http://h/a")
    (trace_of (fan_run (replicate 30 0) (main 1 "http://h/a")))
    (state_of (fan_run (replicate 30 0) (main 1 "http://h/a")))
  ∧ at_pc <$> threads
                (state_of (fan_run (replicate 30 0) (main 1 "http://h/a")))
    = [L102]
  ∧ g_urls_to_be_processed
      (state_of (fan_run (replicate 30 0) (main 1 "http://h/a")))
    = ["http://h/c"]
  ∧ at_pc <$> threads
                (state_of (fan_run (replicate 33 0) (main 1 "http://h/a")))
    = [L108]
  ∧ g_urls_to_be_processed
      (state_of (fan_run (replicate 33 0) (main 1 "http://h/a")))
    = ["http://h/c"]
  ∧ threads (notify_all
               (state_of (fan_run (replicate 33 0) (main 1 "http://h/a"))))
    = threads (state_of (fan_run (replicate 33 0) (main 1 "http://h/a"))).
Proof.
  split; [apply fan_run_exec; computed|]. by vm_compute.
Qed.

Lemma wake_needs_transition_witness :
  ∃ l, threads
         (state_of (site_run [0; 0; 0; 0; 0; 0; 1; 1; 1; 0; 0; 0; 0; 0; 0]
                      (main 2 "http://h/a"))) !! 0 = Some l
       ∧ at_pc l = L108.
Proof.
  destruct (wake_needs_transition sample_urlparse site_findAll_a has_scheme
              site_read stdout_open 2 "http://h/a" _
              (state_of (site_run [0; 0; 0; 0; 0; 0; 1; 1; 1; 0; 0; 0; 0; 0; 0]
                           (main 2 "http://h/a")))
              (site_run_exec [0; 0; 0; 0; 0; 0; 1; 1; 1; 0; 0; 0; 0; 0; 0]
                 (main 2 "http://h/a") ltac:(computed)))
    as [Hwake _].
  destruct (Hwake 0
              (state_of (site_run [0; 0; 0; 0; 0; 0; 1; 1; 1; 0; 0; 0; 0; 0; 0; 0]
                           (main 2 "http://h/a")))
              1
              {| at_pc := L92_blocked; page_url := ""; page_links := [];
                 for_rest := [] |}
              ltac:(by vm_compute) ltac:(by vm_compute) eq_refl
              ltac:(by vm_compute))
    as (l & Hl & [[Hpc _] | [Hpc _]]).
  - exfalso. vm_compute in Hl. injection Hl as <-. discriminate Hpc.
  - by exists l.
Defined.

(** ** Further properties: the extractor *)

Lemma link_url_of_href p link :
  link_url_of p link
  = match Tag_get "href" link with
    | Some h => if first_is_slash h then Some (p +:+ h) else None
    | None => None
    end.
Proof.
  unfold link_url_of. destruct (Tag_get "href" link) as [[|c h]|]; try done.
  simpl String.length. simpl Nat.eqb.
  destruct (first_is_slash (String c h)); [done|].
  by rewrite slice_0_3_is_not_http.
Qed.

Lemma omap_link_url_of p (found : list Tag) :
  omap (link_url_of p) found
  = (λ h, p +:+ h)
      <$> filter (λ h, first_is_slash h = true) (omap (Tag_get "href") found).
Proof.
  induction found as [|link found IH]; [done|]. csimpl.
  rewrite link_url_of_href, IH.
  destruct (Tag_get "href" link) as [h|]; [|done].
  rewrite filter_cons. destruct (first_is_slash h) eqn:E.
  - by rewrite decide_True.
  - by rewrite decide_False.
Qed.

(** X1. What [get_links_from_page_text] returns: for the anchors whose
    href is present and begins with a slash, in document order, the page's
    [scheme://netloc] followed by the href; every other anchor (no href,
    empty href, any other first character) contributes nothing. When
    [urlparse] or the HTML parser raises, so does the function. *)
Theorem extracted_links_are_slash_hrefs urlparse findAll_a page_url page_text :
  get_links_from_page_text urlparse findAll_a page_url page_text
  = match urlparse page_url, findAll_a page_text with
    | Some parsed_url, Some found =>
        Some ((λ h, pathless_url_of parsed_url +:+ h)
                <$> filter (λ h, first_is_slash h = true)
                      (omap (Tag_get "href") found))
    | _, _ => None
    end.
Proof.
  unfold get_links_from_page_text.
  destruct (urlparse page_url) as [parsed_url|]; [|done].
  destruct (findAll_a page_text) as [found|]; [|done]. simpl.
  by rewrite links_loop_omap, omap_link_url_of.
Qed.

(** ** Further properties on the sample sites *)

Lemma lock_owner_in_critical_section_witness :
  g_url_condition_lock
    (state_of (site_run [0; 0; 0] (main 2 "http://h/a"))) = Some 0
  ↔ ∃ l, threads (state_of (site_run [0; 0; 0] (main 2 "http://h/a")))
         !! 0 = Some l ∧ holds_lock (at_pc l) = true.
Proof.
  apply (lock_owner_in_critical_section sample_urlparse site_findAll_a
           has_scheme site_read stdout_open 2 "http://h/a" _ _ 0
           (site_run_exec [0; 0; 0] (main 2 "http://h/a") ltac:(computed))).
Defined.

Lemma counter_at_most_threads_witness :
  length (threads (state_of (site_run (replicate 9 0) (main 2 "http://h/a"))))
  = 2
  ∧ (g_num_threads_processing
       (state_of (site_run (replicate 9 0%nat) (main 2 "http://h/a"))) ≤ 2)%Z.
Proof.
  exact (counter_at_most_threads sample_urlparse site_findAll_a has_scheme
           site_read stdout_open 2 "http://h/a" _ _
           (site_run_exec (replicate 9 0) (main 2 "http://h/a")
              ltac:(computed))).
Defined.

Lemma processed_in_dequeue_order_witness :
  dequeued_urls (trace_of (site_run (replicate 34 0) (main 1 "http://h/a")))
  = g_urls_already_processed
      (state_of (site_run (replicate 34 0) (main 1 "http://h/a")))
    ++ omap popped_url
         (threads (state_of (site_run (replicate 34 0) (main 1 "http://h/a")))).
Proof.
  exact (processed_in_dequeue_order sample_urlparse site_findAll_a has_scheme
           site_read stdout_open 1 "http://h/a" _ _
           (site_run_exec (replicate 34 0) (main 1 "http://h/a")
              ltac:(computed))).
Defined.

Lemma frontier_is_fifo_witness :
  ∃ more,
    dequeued_urls
      (trace_of (fan_run (replicate 12 0) (main 1 "http://h/a"))
       ++ trace_of (fan_run (replicate 20 0)
                      (state_of (fan_run (replicate 12 0)
                                   (main 1 "http://h/a")))))
    ++ g_urls_to_be_processed
         (state_of (fan_run (replicate 20 0)
                      (state_of (fan_run (replicate 12 0)
                                   (main 1 "http://h/a")))))
    = (dequeued_urls
         (trace_of (fan_run (replicate 12 0) (main 1 "http://h/a")))
       ++ g_urls_to_be_processed
            (state_of (fan_run (replicate 12 0) (main 1 "http://h/a"))))
      ++ more.
Proof.
  exact (frontier_is_fifo sample_urlparse fan_findAll_a has_scheme fan_read
           stdout_open 1 "http://h/a" _ _ _ _
           (fan_run_exec (replicate 12 0) (main 1 "http://h/a")
              ltac:(computed))
           (fan_run_exec (replicate 20 0)
              (state_of (fan_run (replicate 12 0) (main 1 "http://h/a")))
              ltac:(computed))).
Defined.

Lemma fetch_only_what_was_claimed_witness :
  "http://h/b"
  ∈ dequeued_urls (trace_of (site_run (replicate 34 0) (main 1 "http://h/a")))
  ∧ "http://h/b"
    ∈ g_urls_already_processed
        (state_of (site_run (replicate 34 0) (main 1 "http://h/a"))).
Proof.
  apply (fetch_only_what_was_claimed sample_urlparse site_findAll_a has_scheme
           site_read stdout_open 1 "http://h/a" _ _ "http://h/b"
           (site_run_exec (replicate 34 0) (main 1 "http://h/a")
              ltac:(computed))).
  vm_compute. right. by left.
Defined.

Lemma output_is_whole_blocks_witness :
  stdout (state_of (short_run (replicate 37 0) (main 1 "http://h/a")))
  = ["http://h/a"]
  ∧ ∃ bs b k,
      Forall (page_block
                (fetch_links sample_urlparse site_findAll_a site_read)
                (state_of (short_run (replicate 37 0) (main 1 "http://h/a"))))
        bs
      ∧ page_block
          (fetch_links sample_urlparse site_findAll_a site_read)
          (state_of (short_run (replicate 37 0) (main 1 "http://h/a"))) b
      ∧ k ≤ length b.2
      ∧ stdout (state_of (short_run (replicate 37 0) (main 1 "http://h/a")))
        = concat (block <$> bs) ++ take k (block b).
Proof.
  split; [reflexivity|].
  destruct (output_is_whole_blocks sample_urlparse site_findAll_a has_scheme
              site_read stdout_short 1 "http://h/a" _ _
              (short_run_exec (replicate 37 0) (main 1 "http://h/a")
                 ltac:(computed)))
    as (bs & HF & [[Hg _] | [(_ & t & l & Hl & Hp & _) | (_ & _ & Hcut)]]).
  - by vm_compute in Hg.
  - exfalso. destruct t as [|t]; vm_compute in Hl; [|done].
    injection Hl as <-. discriminate Hp.
  - destruct Hcut as (b & k & Hb & Hk & Hout). by exists bs, b, k.
Defined.

Lemma crash_only_on_rejected_url_witness :
  has_scheme "example.com" = false
  ∧ "example.com"
    ∉ fetched_urls (trace_of (site_run (replicate 7 0) (main 1 "example.com"))).
Proof.
  exact (crash_only_on_rejected_url sample_urlparse site_findAll_a has_scheme
           site_read stdout_open 1 "example.com" _ _ 0
           {| at_pc := Crashed; page_url := "example.com"; page_links := [];
              for_rest := [] |}
           (site_run_exec (replicate 7 0) (main 1 "example.com")
              ltac:(computed))
           eq_refl eq_refl).
Defined.

Lemma stuck_means_all_returned_witness :
  at_pc <$> threads (state_of (site_run (replicate 64 0) (main 1 "http://h/a")))
            !! 0
  = Some Returned.
Proof.
  destruct (threads (state_of (site_run (replicate 64 0)
                                 (main 1 "http://h/a"))) !! 0)
    as [l|] eqn:E; [|by vm_compute in E].
  simpl. f_equal.
  apply (stuck_means_all_returned sample_urlparse site_findAll_a has_scheme
           site_read stdout_open 1 "http://h/a" _ _
           (site_run_exec (replicate 64 0) (main 1 "http://h/a")
              ltac:(computed))) with (t := 0); [| |reflexivity|exact E].
  - intros [|t]; by vm_compute.
  - intros [|[|t]] l' Hl; vm_compute in Hl; [|done..].
    injection Hl as <-. done.
Defined.

Lemma rejected_start_url_can_hang_witness :
  ∃ tr s, site_exec (main 2 "example.com") tr s
          ∧ at_pc <$> threads s = [Crashed; L92_blocked]
          ∧ g_num_threads_processing s = 1%Z
          ∧ fetched_urls tr = [] ∧ stdout s = []
          ∧ ∀ t, site_step t s = None.
Proof.
  exact (rejected_start_url_can_hang sample_urlparse site_findAll_a has_scheme
           site_read stdout_open "example.com" eq_refl).
Defined.

Lemma queued_urls_were_discovered_witness :
  "http://h/c" = "http://h/a"
  ∨ ∃ p links,
      p ∈ fetched_urls
            (trace_of (site_run (replicate 34 0) (main 1 "http://h/a")))
      ∧ fetch_links sample_urlparse site_findAll_a site_read p = Some links
      ∧ "http://h/c" ∈ links.
Proof.
  apply (queued_urls_were_discovered sample_urlparse site_findAll_a has_scheme
           site_read stdout_open 1 "http://h/a" _ _ "http://h/c"
           (site_run_exec (replicate 34 0) (main 1 "http://h/a")
              ltac:(computed))).
  left. vm_compute. by left.
Defined.

Lemma all_returned_means_done_witness :
  g_urls_to_be_processed
    (state_of (site_run (replicate 64 0) (main 1 "http://h/a"))) = []
  ∧ g_all_done (state_of (site_run (replicate 64 0) (main 1 "http://h/a")))
    = true
  ∧ g_url_condition_lock
      (state_of (site_run (replicate 64 0) (main 1 "http://h/a"))) = None
  ∧ g_urls_already_processed
      (state_of (site_run (replicate 64 0) (main 1 "http://h/a")))
    = dequeued_urls
        (trace_of (site_run (replicate 64 0) (main 1 "http://h/a")))
  ∧ ((g_print_lock
        (state_of (site_run (replicate 64 0) (main 1 "http://h/a"))) = 1
      ∧ g_num_threads_processing
          (state_of (site_run (replicate 64 0) (main 1 "http://h/a"))) = 0%Z)
     ∨ (g_print_lock
          (state_of (site_run (replicate 64 0) (main 1 "http://h/a"))) = 0
        ∧ g_num_threads_processing
            (state_of (site_run (replicate 64 0) (main 1 "http://h/a")))
          = (-1)%Z)).
Proof.
  apply (all_returned_means_done sample_urlparse site_findAll_a has_scheme
           site_read stdout_open 1 "http://h/a" _ _
           (site_run_exec (replicate 64 0) (main 1 "http://h/a")
              ltac:(computed))).
  - lia.
  - intros [|[|t]] l Hl; vm_compute in Hl; [|done..].
    injection Hl as <-. done.
Defined.

Lemma raising_print_can_hang_witness :
  ∃ tr s, short_exec (main 1 "http://h/a") tr s
          ∧ at_pc <$> threads s = [L113]
          ∧ g_print_lock s = 0
          ∧ g_num_threads_processing s = (-1)%Z
          ∧ stdout s = ["http://h/a"]
          ∧ fetched_urls tr = ["http://h/a"; "http://h/b"]
          ∧ g_urls_to_be_processed s = ["http://h/c"]
          ∧ ∀ t, short_step t s = None.
Proof.
  apply (raising_print_can_hang sample_urlparse site_findAll_a has_scheme
           site_read stdout_short "http://h/a" "http://h/b" "http://h/c");
    first [ discriminate | reflexivity ].
Defined.
